(** * gpt4all.ts: the subprocess session and the artifact provisioner

    A shallow embedding of [src/gpt4all.ts].  The class [GPT4All] keeps a
    handle on one child process and talks to it through its standard
    input and output; everything runs on Node's single-threaded event
    loop.  The embedding makes that loop explicit: a [World] holds the
    object's fields, the child processes with their listener lists, the
    closures of the pending [prompt] calls and the timer queue, and each
    event of the runtime (a chunk on stdout, an error, time passing) is a
    function on worlds. *)

From Stdlib Require Import List NArith ZArith QArith Qabs Bool String Ascii Lia.
Import ListNotations.

Open Scope N_scope.

(* ================================================================== *)
(** ** JavaScript strings *)

Module JS.

(** A JS string is a sequence of UTF-16 code units. *)
Definition char16 := N.
Definition jsstring := list char16.

(** String literals of the source, all ASCII. *)
Fixpoint js (s : string) : jsstring :=
  match s with
  | EmptyString => []
  | String c r => N_of_ascii c :: js r
  end.

Definition ESC : char16 := 27.   (* \u{001B} *)
Definition LF : char16 := 10.    (* \n *)
Definition CR : char16 := 13.
Definition GT : char16 := 62.    (* > *)

(** [String.prototype.endsWith] *)
Definition endsWith (s suffix : jsstring) : bool :=
  let n := List.length s in
  let k := List.length suffix in
  (k <=? n)%nat && if list_eq_dec N.eq_dec (skipn (n - k) s) suffix then true else false.

(** [s.slice(0, -1)] *)
Definition slice_0_m1 (s : jsstring) : jsstring := firstn (List.length s - 1) s.

(** [String.prototype.includes] for a one-character needle *)
Definition includes_char (s : jsstring) (c : char16) : bool := existsb (N.eqb c) s.

(** LineTerminator of the grammar: LF, CR, LS, PS. *)
Definition isLineTerminator (c : char16) : bool :=
  (c =? 10) || (c =? 13) || (c =? 8232) || (c =? 8233).

(** WhiteSpace and LineTerminator, the class [\s]. *)
Definition isWhiteSpace (c : char16) : bool :=
  (c =? 9) || (c =? 11) || (c =? 12) || (c =? 32) || (c =? 160) ||
  (c =? 5760) || ((8192 <=? c) && (c <=? 8202)) || (c =? 8239) ||
  (c =? 8287) || (c =? 12288) || (c =? 65279).

Definition class_s (c : char16) : bool := isWhiteSpace c || isLineTerminator c.

(** [.] without the [s] flag: anything but a line terminator. *)
Definition class_dot (c : char16) : bool := negb (isLineTerminator c).

(** *** The fragment of regular expressions the source uses

    A pattern is a sequence of atoms.  [Bol] is [^] under the [m] flag. *)
Inductive atom :=
| Bol
| Lit (c : char16)
| Star (cls : char16 -> bool)
| Opt (cls : char16 -> bool).

(** [matches_at r prev t]: the pattern [r] matches a prefix of [t], where
    [prev] is the code unit just before [t] in the subject ([None] at
    its start).  A backtracking matcher; for [test] the order in which
    the alternatives of a quantifier are tried does not matter. *)
Fixpoint matches_at (r : list atom) (prev : option char16) (t : jsstring) {struct r} : bool :=
  match r with
  | [] => true
  | Bol :: r' =>
      match prev with
      | None => matches_at r' prev t
      | Some p => isLineTerminator p && matches_at r' prev t
      end
  | Lit c :: r' =>
      match t with
      | x :: t' => (x =? c) && matches_at r' (Some x) t'
      | [] => false
      end
  | Star cls :: r' =>
      (fix star (prev : option char16) (t : jsstring) {struct t} : bool :=
         match t with
         | x :: t' => (cls x && star (Some x) t') || matches_at r' prev t
         | [] => matches_at r' prev t
         end) prev t
  | Opt cls :: r' =>
      match t with
      | x :: t' => (cls x && matches_at r' (Some x) t') || matches_at r' prev t
      | [] => matches_at r' prev t
      end
  end.

(** [RegExp.prototype.test] for a pattern without the [g] and [y]
    flags: is there a start position at which the pattern matches. *)
Fixpoint search (r : list atom) (prev : option char16) (t : jsstring) {struct t} : bool :=
  matches_at r prev t ||
  match t with
  | x :: t' => search r (Some x) t'
  | [] => false
  end.

Definition test (r : list atom) (t : jsstring) : bool := search r None t.

(** [Array.prototype.join] on an array of strings *)
Fixpoint join (sep : jsstring) (l : list jsstring) : jsstring :=
  match l with
  | [] => []
  | x :: r => match r with [] => x | _ => x ++ sep ++ join sep r end
  end.

(** What a synchronous call gives back: a value or a thrown error. *)
Inductive completion (A : Type) :=
| Return (a : A)
| Throw (message : jsstring).
Arguments Return {A} a.
Arguments Throw {A} message.

End JS.

Import JS.

(* ================================================================== *)
(** ** The session: [bot], [open], [close], [prompt] *)

Module Session.

(** [/^\u{001B}.*\n>\s?/mu] *)
Definition completion_pattern : list atom :=
  [Bol; Lit ESC; Star class_dot; Lit LF; Lit GT; Opt class_s].

Definition IDLE_MS : N := 4000.

(** State of the promise a [prompt] call returned. *)
Inductive settlement :=
| Pending
| Resolved (value : jsstring)
| Rejected (err : jsstring).

(** The closure one [prompt] call creates: the captured [bot], the
    variables [response] and [timeoutId] and the promise. *)
Record PromptCall := mkCall {
  pc_bot : nat;
  response : jsstring;
  timeoutId : option nat;
  promise : settlement;
}.

(** Listeners on a child's [stdout], by the closure they belong to. *)
Inductive listener :=
| StartupListener (opening : nat)
| OnStdoutData (call : nat)
| OnStdoutError (call : nat).

Definition listener_eqb (a b : listener) : bool :=
  match a, b with
  | StartupListener x, StartupListener y => Nat.eqb x y
  | OnStdoutData x, OnStdoutData y => Nat.eqb x y
  | OnStdoutError x, OnStdoutError y => Nat.eqb x y
  | _, _ => false
  end.

(** A child process as the class sees it. *)
Record ChildProcess := mkProc {
  argv : list jsstring;            (* command and arguments of spawn *)
  stdin : list jsstring;           (* what was written to stdin, in order *)
  kills : nat;                     (* calls of kill() *)
  data_listeners : list listener;  (* stdout, event 'data' *)
  error_listeners : list listener; (* stdout, event 'error' *)
}.

(** A value of the decoder configuration, by what [toString()] does on
    it.  [Partial<GPTArguments>] lets an entry be undefined, and nothing
    keeps a caller from passing null. *)
Inductive jsvalue :=
| Undefined
| Null
| Value (text : jsstring).   (* a value whose [toString()] gives [text] *)

(** [value.toString()]: a TypeError on undefined and null. *)
Definition toString (v : jsvalue) : completion jsstring :=
  match v with
  | Undefined => Throw (js "Cannot read properties of undefined (reading 'toString')")
  | Null => Throw (js "Cannot read properties of null (reading 'toString')")
  | Value text => Return text
  end.

(** A timer armed by [setTimeout]. *)
Record Timer := mkTimer {
  tid : nat;
  deadline : N;
  owner : nat;   (* the prompt call whose callback it runs *)
}.

Record World := mkWorld {
  bot : option nat;                (* this.bot: a handle into [procs] *)
  executablePath : jsstring;
  modelPath : jsstring;
  decoderConfig : list (jsstring * jsvalue);   (* entries, in order *)
  procs : list ChildProcess;       (* every process spawned so far *)
  calls : list PromptCall;         (* every prompt closure created so far *)
  openings : list bool;            (* promises awaited by open(): resolved? *)
  timers : list Timer;             (* armed timers, oldest first *)
  next_timer : nat;
  now : N;                         (* clock, in ms *)
  uncaught : list jsstring;        (* 'error' events nobody listened to *)
}.

(** *** Field updates *)

Definition set_bot (b : option nat) (w : World) : World :=
  mkWorld b (executablePath w) (modelPath w) (decoderConfig w) (procs w) (calls w)
          (openings w) (timers w) (next_timer w) (now w) (uncaught w).

Definition set_procs (ps : list ChildProcess) (w : World) : World :=
  mkWorld (bot w) (executablePath w) (modelPath w) (decoderConfig w) ps (calls w)
          (openings w) (timers w) (next_timer w) (now w) (uncaught w).

Definition set_calls (cs : list PromptCall) (w : World) : World :=
  mkWorld (bot w) (executablePath w) (modelPath w) (decoderConfig w) (procs w) cs
          (openings w) (timers w) (next_timer w) (now w) (uncaught w).

Definition set_openings (os : list bool) (w : World) : World :=
  mkWorld (bot w) (executablePath w) (modelPath w) (decoderConfig w) (procs w) (calls w)
          os (timers w) (next_timer w) (now w) (uncaught w).

Definition set_timers (ts : list Timer) (n : nat) (w : World) : World :=
  mkWorld (bot w) (executablePath w) (modelPath w) (decoderConfig w) (procs w) (calls w)
          (openings w) ts n (now w) (uncaught w).

Definition set_now (t : N) (w : World) : World :=
  mkWorld (bot w) (executablePath w) (modelPath w) (decoderConfig w) (procs w) (calls w)
          (openings w) (timers w) (next_timer w) t (uncaught w).

Definition add_uncaught (e : jsstring) (w : World) : World :=
  mkWorld (bot w) (executablePath w) (modelPath w) (decoderConfig w) (procs w) (calls w)
          (openings w) (timers w) (next_timer w) (now w) (uncaught w ++ [e]).

(** Update of the element at an index; nothing happens out of range
    (the handles used below are always in range). *)
Fixpoint update {A} (i : nat) (f : A -> A) (l : list A) : list A :=
  match l, i with
  | [], _ => []
  | x :: r, O => f x :: r
  | x :: r, S j => x :: update j f r
  end.

Definition on_proc (p : nat) (f : ChildProcess -> ChildProcess) (w : World) : World :=
  set_procs (update p f (procs w)) w.

Definition on_call (c : nat) (f : PromptCall -> PromptCall) (w : World) : World :=
  set_calls (update c f (calls w)) w.

(** *** The emitter of [stdout] *)

(** [removeListener] takes out the most recently added instance. *)
Fixpoint remove_first (l : listener) (ls : list listener) : list listener :=
  match ls with
  | [] => []
  | x :: r => if listener_eqb l x then r else x :: remove_first l r
  end.

Definition remove_listener (l : listener) (ls : list listener) : list listener :=
  rev (remove_first l (rev ls)).

Definition addListener_data (p : nat) (l : listener) : World -> World :=
  on_proc p (fun pr => mkProc (argv pr) (stdin pr) (kills pr)
                              (data_listeners pr ++ [l]) (error_listeners pr)).

Definition addListener_error (p : nat) (l : listener) : World -> World :=
  on_proc p (fun pr => mkProc (argv pr) (stdin pr) (kills pr)
                              (data_listeners pr) (error_listeners pr ++ [l])).

Definition removeListener_data (p : nat) (l : listener) : World -> World :=
  on_proc p (fun pr => mkProc (argv pr) (stdin pr) (kills pr)
                              (remove_listener l (data_listeners pr)) (error_listeners pr)).

Definition removeListener_error (p : nat) (l : listener) : World -> World :=
  on_proc p (fun pr => mkProc (argv pr) (stdin pr) (kills pr)
                              (data_listeners pr) (remove_listener l (error_listeners pr))).

Definition stdin_write (p : nat) (s : jsstring) : World -> World :=
  on_proc p (fun pr => mkProc (argv pr) (stdin pr ++ [s]) (kills pr)
                              (data_listeners pr) (error_listeners pr)).

Definition kill (p : nat) : World -> World :=
  on_proc p (fun pr => mkProc (argv pr) (stdin pr) (S (kills pr))
                              (data_listeners pr) (error_listeners pr)).

(** *** Timers *)

Definition setTimeout (c : nat) (ms : N) (w : World) : nat * World :=
  let id := next_timer w in
  (id, set_timers (timers w ++ [mkTimer id (now w + ms) c]) (S id) w).

Definition clearTimeout (id : nat) (w : World) : World :=
  set_timers (filter (fun t => negb (Nat.eqb (tid t) id)) (timers w)) (next_timer w) w.

(** *** Promises *)

(** Settling a promise a second time has no effect. *)
Definition settle (s : settlement) (pc : PromptCall) : PromptCall :=
  match promise pc with
  | Pending => mkCall (pc_bot pc) (response pc) (timeoutId pc) s
  | _ => pc
  end.

(** *** [close] *)

Definition close (w : World) : World :=
  match bot w with
  | None => w
  | Some b => set_bot None (kill b w)
  end.

(** *** [prompt] and its three closures *)

Definition terminateAndResolve (c : nat) (finalResponse : jsstring) (w : World) : World :=
  match nth_error (calls w) c with
  | None => w
  | Some pc =>
      let w1 := removeListener_data (pc_bot pc) (OnStdoutData c) w in
      let w2 := removeListener_error (pc_bot pc) (OnStdoutError c) w1 in
      let finalResponse' :=
        if endsWith finalResponse (js ">") then slice_0_m1 finalResponse
        else finalResponse in
      on_call c (settle (Resolved finalResponse')) w2
  end.

Definition onStdoutData (c : nat) (text : jsstring) (w : World) : World :=
  match nth_error (calls w) c with
  | None => w
  | Some pc =>
      let w1 := match timeoutId pc with
                | Some id => clearTimeout id w
                | None => w
                end in
      let w2 := if test completion_pattern text
                then terminateAndResolve c (response pc) w1
                else let (id, w') := setTimeout c IDLE_MS w1 in
                     on_call c (fun q => mkCall (pc_bot q) (response q) (Some id) (promise q)) w' in
      on_call c (fun q => mkCall (pc_bot q) (response q ++ text) (timeoutId q) (promise q)) w2
  end.

Definition onStdoutError (c : nat) (err : jsstring) (w : World) : World :=
  match nth_error (calls w) c with
  | None => w
  | Some pc =>
      let w1 := removeListener_data (pc_bot pc) (OnStdoutData c) w in
      let w2 := removeListener_error (pc_bot pc) (OnStdoutError c) w1 in
      on_call c (settle (Rejected err)) w2
  end.

(** [prompt] returns the handle of the call's closure, through which
    its promise is observed. *)
Definition prompt (text : jsstring) (w : World) : completion nat * World :=
  match bot w with
  | None => (Throw (js "Bot is not initialized."), w)
  | Some b =>
      let w1 := stdin_write b (text ++ [LF]) w in
      let c := List.length (calls w1) in
      let w2 := set_calls (calls w1 ++ [mkCall b [] None Pending]) w1 in
      let w3 := addListener_data b (OnStdoutData c) w2 in
      let w4 := addListener_error b (OnStdoutError c) w3 in
      (Return c, w4)
  end.

Definition proompt (text : jsstring) (w : World) : completion nat * World :=
  prompt text w.

(** *** [open] *)

Definition startupListener (p o : nat) (text : jsstring) (w : World) : World :=
  if negb (includes_char text GT) then w
  else removeListener_data p (StartupListener o)
         (set_openings (update o (fun _ => true) (openings w)) w).

(** The loop over the entries of the configuration: two arguments are
    pushed for each, and the first value that does not stringify ends
    the loop with its error. *)
Fixpoint config_args (cfg : list (jsstring * jsvalue)) : completion (list jsstring) :=
  match cfg with
  | [] => Return []
  | (key, value) :: rest =>
      match toString value with
      | Throw err => Throw err
      | Return text =>
          match config_args rest with
          | Throw err => Throw err
          | Return args => Return ([js "--" ++ key; text] ++ args)
          end
      end
  end.

(** [open], up to its [await].  [Return o] is the handle of the awaited
    promise; [Throw err] is the error the promise of [open()] is
    rejected with when the body throws: [close] has run by then, and
    nothing is spawned. *)
Definition open (w : World) : completion nat * World :=
  let w0 := close w in
  match config_args (decoderConfig w0) with
  | Throw err => (Throw err, w0)
  | Return flags =>
      let spawnArgs := [executablePath w0; js "--model"; modelPath w0] ++ flags in
      let p := List.length (procs w0) in
      let w1 := set_procs (procs w0 ++ [mkProc spawnArgs [] 0 [] []]) w0 in
      let w2 := set_bot (Some p) w1 in
      let o := List.length (openings w2) in
      let w3 := set_openings (openings w2 ++ [false]) w2 in
      (Return o, addListener_data p (StartupListener o) w3)
  end.

(** *** Events of the runtime *)

Definition call_listener (p : nat) (payload : jsstring) (l : listener) (w : World) : World :=
  match l with
  | StartupListener o => startupListener p o payload w
  | OnStdoutData c => onStdoutData c payload w
  | OnStdoutError c => onStdoutError c payload w
  end.

(** [emit] calls the listeners registered when the event is emitted, in
    the order they were added. *)
Definition emit_data (p : nat) (text : jsstring) (w : World) : World :=
  match nth_error (procs w) p with
  | None => w
  | Some pr => fold_left (fun w' l => call_listener p text l w') (data_listeners pr) w
  end.

Definition emit_error (p : nat) (err : jsstring) (w : World) : World :=
  match nth_error (procs w) p with
  | None => w
  | Some pr =>
      match error_listeners pr with
      | [] => add_uncaught err w
      | ls => fold_left (fun w' l => call_listener p err l w') ls w
      end
  end.

(** The callback every timer of this program runs. *)
Definition timer_callback (t : Timer) (w : World) : World :=
  match nth_error (calls w) (owner t) with
  | None => w
  | Some pc => terminateAndResolve (owner t) (response pc) w
  end.

(** Time passes.  All timers are armed for the same delay, so the queue
    is ordered by deadline and the due ones run oldest first. *)
Definition elapse (ms : N) (w : World) : World :=
  let target := now w + ms in
  let due := filter (fun t => deadline t <=? target) (timers w) in
  let rest := filter (fun t => negb (deadline t <=? target)) (timers w) in
  let w1 := set_timers rest (next_timer w) w in
  set_now target (fold_left (fun w' t => timer_callback t w') due w1).

Inductive event :=
| Data (p : nat) (text : jsstring)
| Error (p : nat) (err : jsstring)
| Elapse (ms : N).

Definition step (w : World) (e : event) : World :=
  match e with
  | Data p text => emit_data p text w
  | Error p err => emit_error p err w
  | Elapse ms => elapse ms w
  end.

Definition run (w : World) (es : list event) : World := fold_left step es w.

(** What the caller of [prompt] observes of call [c]. *)
Definition outcome (c : nat) (w : World) : option settlement :=
  option_map promise (nth_error (calls w) c).

(** The buffer of call [c]. *)
Definition buffer (c : nat) (w : World) : option jsstring :=
  option_map response (nth_error (calls w) c).

(** *** Vocabulary of the statements *)

(** What [terminateAndResolve] makes of the text it is given. *)
Definition cleaned (s : jsstring) : jsstring :=
  if endsWith s (js ">") then slice_0_m1 s else s.

(** A session is open on process [b] and nothing is pending on it: no
    listener on its stdout, no timer armed. *)
Definition idle (b : nat) (w : World) : Prop :=
  bot w = Some b /\
  (exists pr, nth_error (procs w) b = Some pr /\
              data_listeners pr = [] /\ error_listeners pr = []) /\
  timers w = [].

Definition armed (c : nat) (dl : option (nat * N)) : list Timer :=
  match dl with
  | None => []
  | Some (id, d) => [mkTimer id d c]
  end.

(** Call [c] is the one pending call on process [b]: its promise is
    pending, its buffer holds [acc], its two listeners are the only ones
    on the stream, and its idle timer, when armed, is the only timer. *)
Definition listening (c b : nat) (acc : jsstring) (dl : option (nat * N)) (w : World) : Prop :=
  nth_error (calls w) c = Some (mkCall b acc (option_map fst dl) Pending) /\
  (exists pr, nth_error (procs w) b = Some pr /\
              data_listeners pr = [OnStdoutData c] /\
              error_listeners pr = [OnStdoutError c]) /\
  timers w = armed c dl.

(** Chunks arriving on the stdout of [b], each after a gap of silence. *)
Definition arrivals (b : nat) (cs : list (N * jsstring)) : list event :=
  flat_map (fun gc => [Elapse (fst gc); Data b (snd gc)]) cs.

(** Every gap is shorter than the idle delay and no chunk matches the
    completion pattern. *)
Definition all_quiet (cs : list (N * jsstring)) : bool :=
  forallb (fun gc => (fst gc <? IDLE_MS) && negb (test completion_pattern (snd gc))) cs.

Definition texts (cs : list (N * jsstring)) : jsstring := List.concat (map snd cs).

(** No chunk matches the completion pattern. *)
Definition no_match (cs : list (N * jsstring)) : bool :=
  forallb (fun gc => negb (test completion_pattern (snd gc))) cs.

(** The gaps leave every armed idle timer short of its deadline.
    [armed] says whether a timer is armed at all, and [silence] how long
    ago it was armed: a timer is armed by a chunk only, so the gap
    before the first chunk of a call is not bounded. *)
Fixpoint in_time (armed : bool) (silence : N) (gaps : list N) : bool :=
  match gaps with
  | [] => true
  | g :: rest => (negb armed || (silence + g <? IDLE_MS)) && in_time true 0 rest
  end.

(** Arrivals after a prompt that leave it pending: no chunk matches,
    the first may come at any time, and each later one comes less than
    4000 ms after the one before. *)
Definition calm (cs : list (N * jsstring)) : bool :=
  in_time false 0 (map fst cs) && no_match cs.

Definition started (cs : list (N * jsstring)) : bool :=
  match cs with [] => false | _ => true end.

Definition is_armed (dl : option (nat * N)) : bool :=
  match dl with Some _ => true | None => false end.

(** The timer [dl], if armed, is due 4000 ms after a moment [silence]
    ago. *)
Definition due_after (silence : N) (dl : option (nat * N)) (w : World) : Prop :=
  match dl with
  | Some (_, d) => d + silence = now w + IDLE_MS
  | None => True
  end.

(** Calls [c1] and [c2] are both pending on process [b], [c1] the
    older: their listeners are the ones on the stream, in that order,
    and their idle timers, when armed, are the only timers. *)
Definition listening2 (c1 c2 b : nat) (acc1 acc2 : jsstring)
    (dl1 dl2 : option (nat * N)) (w : World) : Prop :=
  c1 <> c2 /\
  nth_error (calls w) c1 = Some (mkCall b acc1 (option_map fst dl1) Pending) /\
  nth_error (calls w) c2 = Some (mkCall b acc2 (option_map fst dl2) Pending) /\
  (exists pr, nth_error (procs w) b = Some pr /\
              data_listeners pr = [OnStdoutData c1; OnStdoutData c2] /\
              error_listeners pr = [OnStdoutError c1; OnStdoutError c2]) /\
  timers w = armed c1 dl1 ++ armed c2 dl2 /\
  match dl2 with
  | Some (i2, _) =>
      (i2 < next_timer w)%nat /\
      match dl1 with Some (i1, _) => i1 <> i2 | None => True end
  | None => True
  end.

(** The start of the subject or the position after a line terminator. *)
Definition line_start (pre : jsstring) : Prop :=
  pre = [] \/ exists pre' c, pre = pre' ++ [c] /\ isLineTerminator c = true.

(** The shape of a chunk that ends a response: at the start of a line,
    ESC, then characters of that line, then a newline and ">". *)
Definition marker_shape (t : jsstring) : Prop :=
  exists pre line suf,
    t = pre ++ ESC :: line ++ LF :: GT :: suf /\
    line_start pre /\
    forallb class_dot line = true.

(** Single flight, at one input: a second [prompt] issued while the
    first is pending is rejected, by a throw or by a promise already
    rejected, or else kept off the stream, which here means that a chunk
    arriving while the first call is pending does not reach the second
    call's buffer. *)
Definition serialized_at (w : World) (first second chunk : jsstring) (p : nat) : Prop :=
  match prompt first w with
  | (Throw _, _) => True
  | (Return c1, w1) =>
      match prompt second w1 with
      | (Throw _, _) => True
      | (Return c2, w2) =>
          (exists err, outcome c2 w2 = Some (Rejected err)) \/
          let w3 := emit_data p chunk w2 in
          (outcome c1 w3 = Some Pending -> buffer c2 w3 = Some [])
      end
  end.

Definition total_kills (w : World) : nat :=
  fold_right (fun pr n => (kills pr + n)%nat) 0%nat (procs w).

(** A new object, before [open]. *)
Definition fresh : World :=
  mkWorld None (js "/home/u/.nomic/gpt4all") (js "/home/u/.nomic/gpt4all-lora-quantized.bin")
          [] [] [] [] [] 0 0 [].

(** The object after [open], once the child has printed its prompt
    marker. *)
Definition booted : World := run (snd (open fresh)) [Data 0 (js "> ")].

(** A chunk the completion pattern matches: ESC [ 0 m, newline, the
    marker. *)
Definition marker_chunk : jsstring := [ESC] ++ js "[0m" ++ [LF] ++ js "> ".

End Session.

(* ================================================================== *)
(** ** The provisioner: [init], [downloadFile], [followRedirects] *)

Module Provisioner.

(** *** [Number(...)] of a header value

    A Number is kept as the mathematical value it was rounded from:
    [Val q] stands for the double nearest to [q].  The program only
    asks whether the Number is zero or NaN, and the double nearest to
    [q] is zero exactly when [|q| <= 2^-1075] (round half to even). *)
Inductive number :=
| NaN
| Inf (negative : bool)
| Val (mv : Q).

Definition rounds_to_zero (q : Q) : bool :=
  Qle_bool (Qabs q) (Qpower (2 # 1) (-1075)).

(** ToBoolean *)
Definition truthy (n : number) : bool :=
  match n with
  | NaN => false
  | Inf _ => true
  | Val q => negb (rounds_to_zero q)
  end.

(** [n === 0] *)
Definition is_zero (n : number) : bool :=
  match n with
  | Val q => rounds_to_zero q
  | _ => false
  end.

Fixpoint span (p : char16 -> bool) (t : jsstring) : jsstring * jsstring :=
  match t with
  | [] => ([], [])
  | c :: r => if p c then let (a, b) := span p r in (c :: a, b) else ([], t)
  end.

Definition trim_start (t : jsstring) : jsstring := snd (span class_s t).
Definition trim (t : jsstring) : jsstring := rev (trim_start (rev (trim_start t))).

Definition jsstring_eqb (a b : jsstring) : bool :=
  if list_eq_dec N.eq_dec a b then true else false.

Definition digit_of (base : N) (c : char16) : option N :=
  let v := if (48 <=? c) && (c <=? 57) then Some (c - 48)
           else if (97 <=? c) && (c <=? 102) then Some (c - 87)
           else if (65 <=? c) && (c <=? 70) then Some (c - 55)
           else None in
  match v with
  | Some d => if d <? base then Some d else None
  | None => None
  end.

Definition is_digit (base : N) (c : char16) : bool :=
  match digit_of base c with Some _ => true | None => false end.

Definition digits_value (base : N) (ds : jsstring) : N :=
  fold_left (fun acc c => acc * base + match digit_of base c with Some d => d | None => 0 end) ds 0.

(** ExponentPart, optional, up to the end of the literal. *)
Definition parse_exponent (t : jsstring) : option Z :=
  match t with
  | [] => Some 0%Z
  | c :: r =>
      if (c =? 101) || (c =? 69) then
        let (negative, r') :=
          match r with
          | 43 :: r' => (false, r')
          | 45 :: r' => (true, r')
          | _ => (false, r)
          end in
        match span (is_digit 10) r' with
        | ((_ :: _) as ds, []) =>
            let e := Z.of_N (digits_value 10 ds) in
            Some (if negative then (- e)%Z else e)
        | _ => None
        end
      else None
  end.

(** StrUnsignedDecimalLiteral *)
Definition parse_unsigned_decimal (t : jsstring) : number :=
  if jsstring_eqb t (js "Infinity") then Inf false
  else
    let (ip, r1) := span (is_digit 10) t in
    let '(fp, r2) :=
      match r1 with
      | 46 :: r => let (f, r') := span (is_digit 10) r in (Some f, r')
      | _ => (None, r1)
      end in
    let frac := match fp with Some f => f | None => [] end in
    match ip, frac with
    | [], [] => NaN
    | _, _ =>
        match parse_exponent r2 with
        | None => NaN
        | Some e =>
            let m := Z.of_N (digits_value 10 (ip ++ frac)) in
            Val (inject_Z m * Qpower (10 # 1) (e - Z.of_nat (List.length frac)))
        end
    end.

Definition negate (n : number) : number :=
  match n with
  | NaN => NaN
  | Inf s => Inf (negb s)
  | Val q => Val (- q)
  end.

(** NonDecimalIntegerLiteral: 0b, 0o, 0x and their capitals. *)
Definition parse_non_decimal (t : jsstring) : option number :=
  match t with
  | 48 :: c :: ((_ :: _) as ds) =>
      let base :=
        if (c =? 98) || (c =? 66) then Some 2
        else if (c =? 111) || (c =? 79) then Some 8
        else if (c =? 120) || (c =? 88) then Some 16
        else None in
      match base with
      | Some b =>
          if forallb (is_digit b) ds
          then Some (Val (inject_Z (Z.of_N (digits_value b ds))))
          else Some NaN
      | None => None
      end
  | _ => None
  end.

(** StringToNumber *)
Definition StringToNumber (t : jsstring) : number :=
  match trim t with
  | [] => Val 0
  | lit =>
      match parse_non_decimal lit with
      | Some n => n
      | None =>
          match lit with
          | 43 :: r => parse_unsigned_decimal r
          | 45 :: r => negate (parse_unsigned_decimal r)
          | _ => parse_unsigned_decimal lit
          end
      end
  end.

(** [Number(v)] for [v : string | undefined] *)
Definition Number (v : option jsstring) : number :=
  match v with
  | None => NaN
  | Some t => StringToNumber t
  end.

(** *** HTTP *)

Record IncomingMessage := mkMsg {
  statusCode : option N;
  location : option jsstring;        (* headers.location *)
  content_length : option jsstring;  (* headers['content-length'] *)
}.

Definition status_is (r : IncomingMessage) (code : N) : bool :=
  match statusCode r with
  | Some c => c =? code
  | None => false
  end.

(** What the promise of [followRedirects] comes to. *)
Inductive fetched :=
| Response (r : IncomingMessage)
| Threw (message : jsstring)
| NoResponse           (* the callback of [get] is never called *)
| OutOfFuel.

(** What a rejection carries: [reject] is called with a status code or
    with a string. *)
Inductive reason :=
| Status (code : N)
| Message (text : jsstring).

(** The promise [downloadFile] returns. *)
Inductive download :=
| Rejected (r : reason)
| Streaming (totalSize : number)  (* settles with the writer's finish or error *)
| NeverSettles                    (* the executor failed at an await *)
| Unfinished.                     (* out of fuel *)

Section Network.

(** The servers: [get url] answers with a message or not at all. *)
Variable Net : Type.
Variable get : jsstring -> Net -> option IncomingMessage * Net.

Record Env := mkEnv {
  net : Net;
  homedir : jsstring;               (* os.homedir() *)
  mkdir_ok : bool;                  (* does mkdir succeed *)
  requests : list jsstring;         (* URLs requested, in order *)
  made_dirs : list jsstring;        (* mkdir calls *)
  write_streams : list jsstring;    (* files opened by createWriteStream *)
  piped : list jsstring;            (* files a response body is piped into *)
}.

(** The recursion of the source is unbounded; [fuel] bounds the number
    of requests. *)
Fixpoint followRedirects (fuel : nat) (url : option jsstring) (e : Env) : fetched * Env :=
  match fuel with
  | O => (OutOfFuel, e)
  | S fuel' =>
      match url with
      | None => (Threw (js "No URL provided"), e)
      | Some u =>
          let (msg, n') := get u (net e) in
          let e' := mkEnv n' (homedir e) (mkdir_ok e) (requests e ++ [u])
                          (made_dirs e) (write_streams e) (piped e) in
          match msg with
          | None => (NoResponse, e')
          | Some response =>
              if status_is response 301 || status_is response 302
              then followRedirects fuel' (location response) e'
              else (Response response, e')
          end
      end
  end.

Definition mkdir (dir : jsstring) (e : Env) : Env :=
  mkEnv (net e) (homedir e) (mkdir_ok e) (requests e)
        (made_dirs e ++ [dir]) (write_streams e) (piped e).

Definition createWriteStream (path : jsstring) (e : Env) : Env :=
  mkEnv (net e) (homedir e) (mkdir_ok e) (requests e)
        (made_dirs e) (write_streams e ++ [path]) (piped e).

Definition pipe (path : jsstring) (e : Env) : Env :=
  mkEnv (net e) (homedir e) (mkdir_ok e) (requests e)
        (made_dirs e) (write_streams e) (piped e ++ [path]).

Definition no_size : jsstring :=
  js "Failed to download: No download size provided by server".

(** The executor of [downloadFile] from the response on. *)
Definition receive (response : IncomingMessage) (destination : jsstring) (e : Env) : download * Env :=
  if negb (status_is response 200)
  then (Rejected match statusCode response with
                 | None | Some 0 => Message (js "Failed to download")
                 | Some c => Status c
                 end, e)
  else
    let n := Number (content_length response) in
    let totalSize := if truthy n then n else Val 0 in
    if is_zero totalSize then (Rejected (Message no_size), e)
    else
      let e1 := createWriteStream destination e in
      (Streaming totalSize, pipe destination e1).

Definition nomic_dir (e : Env) : jsstring := js "file://" ++ homedir e ++ js "/.nomic/".

Definition downloadFile (fuel : nat) (url destination : jsstring) (e : Env) : download * Env :=
  let e1 := mkdir (nomic_dir e) e in
  if negb (mkdir_ok e1) then (NeverSettles, e1)
  else
    match followRedirects fuel (Some url) e1 with
    | (OutOfFuel, e2) => (Unfinished, e2)
    | (Threw _, e2) => (NeverSettles, e2)
    | (NoResponse, e2) => (NeverSettles, e2)
    | (Response response, e2) => receive response destination e2
    end.

(** A chain of [k] redirects from [u]: each answer but the last has
    status 301 or 302 and a Location, the last is [final]; [us] are the
    URLs requested and [n'] is the network afterwards. *)
Inductive redirect_chain : nat -> jsstring -> Net -> IncomingMessage -> Net -> list jsstring -> Prop :=
| chain_end u n r n' :
    get u n = (Some r, n') ->
    status_is r 301 || status_is r 302 = false ->
    redirect_chain 0 u n r n' [u]
| chain_hop k u n r n1 u' final n' us :
    get u n = (Some r, n1) ->
    status_is r 301 || status_is r 302 = true ->
    location r = Some u' ->
    redirect_chain k u' n1 final n' us ->
    redirect_chain (S k) u n final n' (u :: us).

(** The writer's events settle a streaming download. *)
Inductive writer_event :=
| Finish
| WriterError (err : jsstring).

Inductive settled :=
| Fulfilled
| Failed (r : reason).

Definition on_writer_event (d : download) (ev : writer_event) : option settled :=
  match d with
  | Rejected r => Some (Failed r)
  | Streaming _ =>
      match ev with
      | Finish => Some Fulfilled
      | WriterError err => Some (Failed (Message err))
      end
  | NeverSettles | Unfinished => None
  end.

End Network.

Arguments net {Net} e.
Arguments homedir {Net} e.
Arguments mkdir_ok {Net} e.
Arguments requests {Net} e.
Arguments made_dirs {Net} e.
Arguments write_streams {Net} e.
Arguments piped {Net} e.
Arguments mkEnv {Net}.
Arguments followRedirects {Net} get fuel url e.
Arguments mkdir {Net} dir e.
Arguments createWriteStream {Net} path e.
Arguments pipe {Net} path e.
Arguments receive {Net} response destination e.
Arguments nomic_dir {Net} e.
Arguments downloadFile {Net} get fuel url destination e.
Arguments redirect_chain {Net} get _ _ _ _ _ _.

(** A server for the examples: three redirects from [/a], then a 200
    without content-length; [/sized], [/zero] and [/junk] answer 200 with
    a content-length of 42, 0 and "abc". *)
Definition mock_get (u : jsstring) (n : unit) : option IncomingMessage * unit :=
  (Some (if jsstring_eqb u (js "/a") then mkMsg (Some 302) (Some (js "/b")) None
         else if jsstring_eqb u (js "/b") then mkMsg (Some 301) (Some (js "/c")) None
         else if jsstring_eqb u (js "/c") then mkMsg (Some 302) (Some (js "/d")) None
         else if jsstring_eqb u (js "/sized") then mkMsg (Some 200) None (Some (js "42"))
         else if jsstring_eqb u (js "/zero") then mkMsg (Some 200) None (Some (js "0"))
         else if jsstring_eqb u (js "/junk") then mkMsg (Some 200) None (Some (js "abc"))
         else mkMsg (Some 200) None None), n).

Definition mock_env : Env unit := mkEnv tt (js "/home/u") true [] [] [] [].

(** *** [init] *)

Inductive artifact := TheExecutable | TheModel.

Definition availableModels : list jsstring := [js "gpt4all-lora-quantized"].

Record GPT4All := mkObj {
  model : jsstring;
  downloadPromises : option (list nat);  (* null, or an array of promises *)
  executable_on_disk : bool;             (* existsSync(this.executablePath) *)
  model_on_disk : bool;                  (* existsSync(this.modelPath) *)
  downloads : list artifact;             (* downloads started so far; the
                                            promise of one is its index *)
}.

(** A call of [downloadExecutable] or [downloadModel]: the download is
    started and its promise returned. *)
Definition start_download (a : artifact) (g : GPT4All) : nat * GPT4All :=
  (List.length (downloads g),
   mkObj (model g) (downloadPromises g) (executable_on_disk g) (model_on_disk g)
         (downloads g ++ [a])).

(** [init] returns [Promise.all] of an array of promises; the array is
    what the model returns. *)
Definition init (forceDownload : bool) (g : GPT4All) : list nat * GPT4All :=
  match downloadPromises g with
  | Some ps => (ps, g)
  | None =>
      let '(l1, g1) :=
        if forceDownload || negb (executable_on_disk g)
        then let (p, g') := start_download TheExecutable g in ([p], g')
        else ([], g) in
      let '(l2, g2) :=
        if forceDownload || negb (model_on_disk g1)
        then let (p, g') := start_download TheModel g1 in (l1 ++ [p], g')
        else (l1, g1) in
      (l2, g2)
  end.

(** The constructor, on a disk that holds the executable and the model
    or not. *)
Definition new_GPT4All (model : jsstring) (forceDownload : bool)
    (executable_on_disk model_on_disk : bool) : completion GPT4All :=
  if negb (existsb (jsstring_eqb model) availableModels)
  then Throw (js "Model " ++ model ++ js " is not supported. Current models supported are:" ++ [LF]
              ++ join (js "," ++ [LF]) availableModels)
  else
    let g := mkObj model None executable_on_disk model_on_disk [] in
    Return (if forceDownload then snd (init forceDownload g) else g).

Definition count_downloads (a : artifact) (g : GPT4All) : nat :=
  List.length (filter (fun b => match a, b with
                                | TheExecutable, TheExecutable => true
                                | TheModel, TheModel => true
                                | _, _ => false
                                end) (downloads g)).

End Provisioner.

(* ================================================================== *)
(** ** The downloads: [getModelUrl], [downloadExecutable], [downloadModel] *)

Module Artifacts.
Import Provisioner.

Definition MODEL_URL_BASE : jsstring :=
  js "https://github.com/nomic-ai/gpt4all/blob/main/chat/".

(** [getModelUrl].  [platform] is [os.platform()]; [uname] is what
    [promisify(exec)('uname -m')] comes to, its stdout or the error it
    rejects with, and is only asked for on darwin.  The argument
    [_model] of the source is not used. *)
Definition getModelUrl (platform : jsstring) (uname : completion jsstring) : completion jsstring :=
  if jsstring_eqb platform (js "linux")
  then Return (MODEL_URL_BASE ++ js "gpt4all-lora-quantized-linux-x86?raw=true")
  else if jsstring_eqb platform (js "win32")
  then Return (MODEL_URL_BASE ++ js "gpt4all-lora-quantized-win64.exe?raw=true")
  else if negb (jsstring_eqb platform (js "darwin"))
  then Throw (js "Your platform is not supported: " ++ platform ++
              js ". Current binaries supported are for OSX (ARM and Intel), Linux and Windows.")
  else
    match uname with
    | Throw err => Throw err
    | Return stdout =>
        if jsstring_eqb (trim stdout) (js "arm64")
        then Return (MODEL_URL_BASE ++ js "gpt4all-lora-quantized-OSX-m1?raw=true")
        else Return (MODEL_URL_BASE ++ js "gpt4all-lora-quantized-OSX-intel?raw=true")
    end.

(** The paths the constructor computes. *)
Definition executablePath_of (home : jsstring) : jsstring := home ++ js "/.nomic/gpt4all".

Definition modelPath_of (home model : jsstring) : jsstring :=
  home ++ js "/.nomic/" ++ model ++ js ".bin".

Definition modelUrl_of (model : jsstring) : jsstring :=
  js "https://the-eye.eu/public/AI/models/nomic-ai/gpt4all/" ++ model ++ js ".bin".

(** What an [await]ed asynchronous function comes to. *)
Inductive finished :=
| Done
| Failure (r : reason)      (* rejected with what [reject] was given *)
| Raised (err : jsstring)   (* rejected with an error thrown or passed on *)
| Hanging                   (* an awaited promise never settles *)
| NoFuel.

Section Downloads.

Variable Net : Type.
Variable get : jsstring -> Net -> option IncomingMessage * Net.

Record Host := mkHost {
  env : Env Net;
  chmod_error : option jsstring;             (* the error [chmod] rejects with, if it does *)
  made_executable : list (jsstring * N);     (* files [chmod] changed, with the mode *)
  console : list jsstring;                   (* lines of [console.log] *)
}.

(** [await this.downloadFile(...)], the writer ending with [ev]. *)
Definition await_download (d : download) (ev : writer_event) : finished :=
  match d with
  | Unfinished => NoFuel
  | _ =>
      match on_writer_event d ev with
      | Some Fulfilled => Done
      | Some (Failed r) => Failure r
      | None => Hanging
      end
  end.

Definition downloadExecutable (platform : jsstring) (uname : completion jsstring)
    (fuel : nat) (ev : writer_event) (h : Host) : finished * Host :=
  match getModelUrl platform uname with
  | Throw err => (Raised err, h)
  | Return upstream =>
      let path := executablePath_of (homedir (env h)) in
      let (d, e') := downloadFile get fuel upstream path (env h) in
      let h1 := mkHost e' (chmod_error h) (made_executable h) (console h) in
      match await_download d ev with
      | Done =>
          match chmod_error h1 with
          | Some err => (Raised err, h1)
          | None =>
              (Done,
               mkHost e' (chmod_error h) (made_executable h ++ [(path, 493)])
                      (console h ++ [js "File downloaded successfully to " ++ path]))
          end
      | other => (other, h1)
      end
  end.

Definition downloadModel (model : jsstring) (fuel : nat) (ev : writer_event) (h : Host)
    : finished * Host :=
  let path := modelPath_of (homedir (env h)) model in
  let (d, e') := downloadFile get fuel (modelUrl_of model) path (env h) in
  let h1 := mkHost e' (chmod_error h) (made_executable h) (console h) in
  match await_download d ev with
  | Done =>
      (Done,
       mkHost e' (chmod_error h) (made_executable h)
              (console h ++ [js "File downloaded successfully to " ++ path]))
  | other => (other, h1)
  end.

End Downloads.

Arguments mkHost {Net}.
Arguments env {Net} h.
Arguments chmod_error {Net} h.
Arguments made_executable {Net} h.
Arguments console {Net} h.
Arguments downloadExecutable {Net} get platform uname fuel ev h.
Arguments downloadModel {Net} get model fuel ev h.

(** A server on which every URL redirects to itself. *)
Definition loop_get (u : jsstring) (n : unit) : option IncomingMessage * unit :=
  (Some (mkMsg (Some 302) (Some u) None), n).

(** A server that answers every request with a 200 of 1024 bytes. *)
Definition file_get (u : jsstring) (n : unit) : option IncomingMessage * unit :=
  (Some (mkMsg (Some 200) None (Some (js "1024"))), n).

Definition mock_host : Host unit := mkHost mock_env None [] [].

End Artifacts.

(* ================================================================== *)
(** ** Events on one process *)

Module Scenarios.
Import Session.

(** The event happens on the stdout of [b], or is the passing of time. *)
Definition on_process (b : nat) (e : event) : bool :=
  match e with
  | Data p _ => Nat.eqb p b
  | Error p _ => Nat.eqb p b
  | Elapse _ => true
  end.

(** A chunk without the readiness marker. *)
Definition no_marker (t : jsstring) : bool := negb (includes_char t GT).

(** The booted session with a configuration whose second entry is
    undefined. *)
Definition misconfigured : World :=
  mkWorld (bot booted) (executablePath booted) (modelPath booted)
          [(js "temp", Value (js "0.9")); (js "top_k", Undefined); (js "n", Value (js "5"))]
          (procs booted) (calls booted) (openings booted) (timers booted)
          (next_timer booted) (now booted) (uncaught booted).

(** The two halves of [marker_chunk], cut before its newline. *)
Definition marker_head : jsstring := [ESC] ++ js "[0m".
Definition marker_tail : jsstring := [LF] ++ js "> ".

End Scenarios.

(* ================================================================== *)
(** ** The session *)

Module SessionFacts.
Import Session.

(** *** Lists updated by index *)

Lemma nth_error_update {A} (f : A -> A) : forall l i x,
  nth_error l i = Some x -> nth_error (update i f l) i = Some (f x).
Proof.
  induction l as [|y l IH]; intros [|i] x H; simpl in *; try discriminate.
  - now inversion H.
  - now apply IH.
Qed.

Lemma nth_error_update_any {A} (f : A -> A) : forall l i j,
  nth_error (update i f l) j =
  if Nat.eqb j i then option_map f (nth_error l j) else nth_error l j.
Proof.
  induction l as [|y l IH]; intros [|i] [|j]; cbn; auto.
  now destruct (Nat.eqb j i).
Qed.

Lemma update_update {A} (f g : A -> A) : forall l i,
  update i f (update i g l) = update i (fun x => f (g x)) l.
Proof.
  induction l as [|y l IH]; intros [|i]; simpl; auto. now rewrite IH.
Qed.

Lemma update_length {A} (f : A -> A) : forall l i, List.length (update i f l) = List.length l.
Proof. induction l as [|x l IH]; intros [|i]; cbn; auto. Qed.

Lemma nth_error_snoc {A} (l : list A) (x : A) :
  nth_error (l ++ [x]) (List.length l) = Some x.
Proof. induction l; simpl; auto. Qed.

Lemma update_snoc {A} (f : A -> A) (l : list A) (x : A) :
  update (List.length l) f (l ++ [x]) = l ++ [f x].
Proof. induction l as [|y l IH]; cbn; [reflexivity | now rewrite IH]. Qed.

(** *** The completion pattern *)

(** One step of a starred class. *)
Lemma matches_star_cons cls r prev x t :
  matches_at (Star cls :: r) prev (x :: t) =
  (cls x && matches_at (Star cls :: r) (Some x) t) || matches_at r prev (x :: t).
Proof. reflexivity. Qed.

Lemma matches_marker_tail prev t :
  matches_at [Lit LF; Lit GT; Opt class_s] prev t = true <->
  exists suf, t = LF :: GT :: suf.
Proof.
  split.
  - destruct t as [|x [|y rest]]; cbn; try discriminate.
    + now rewrite andb_false_r.
    + intros H. apply andb_prop in H as [Hx H]. apply andb_prop in H as [Hy _].
      apply N.eqb_eq in Hx, Hy. subst. now exists rest.
  - intros [suf ->]. cbn. destruct suf; [reflexivity|]. cbn. now rewrite orb_true_r.
Qed.

Lemma matches_dot_star : forall t prev,
  matches_at [Star class_dot; Lit LF; Lit GT; Opt class_s] prev t = true <->
  exists line suf, t = line ++ LF :: GT :: suf /\ forallb class_dot line = true.
Proof.
  induction t as [|x t IH]; intros prev.
  - split; [cbn; discriminate|]. intros (line & suf & H & _). now destruct line.
  - rewrite matches_star_cons. split.
    + intros H. apply orb_prop in H as [H|H].
      * apply andb_prop in H as [Hx H]. apply IH in H as (line & suf & -> & Hl).
        exists (x :: line), suf. cbn. now rewrite Hx, Hl.
      * apply matches_marker_tail in H as [suf H]. exists [], suf. now split.
    + intros (line & suf & H & Hl). destruct line as [|y line]; cbn in H.
      * apply orb_true_iff. right. apply matches_marker_tail. now exists suf.
      * inversion H; subst. cbn in Hl. apply andb_prop in Hl as [Hy Hl].
        apply orb_true_iff. left. rewrite Hy. cbn. apply IH. now exists line, suf.
Qed.

Lemma matches_completion prev t :
  matches_at completion_pattern prev t = true <->
  match prev with Some p => isLineTerminator p = true | None => True end /\
  exists line suf, t = ESC :: line ++ LF :: GT :: suf /\ forallb class_dot line = true.
Proof.
  unfold completion_pattern.
  assert (E : forall p, matches_at (Lit ESC :: [Star class_dot; Lit LF; Lit GT; Opt class_s]) p t = true <->
              exists line suf, t = ESC :: line ++ LF :: GT :: suf /\ forallb class_dot line = true).
  { intros p. destruct t as [|x t].
    - split; [cbn; discriminate|]. intros (line & suf & H & _). discriminate.
    - change (matches_at (Lit ESC :: [Star class_dot; Lit LF; Lit GT; Opt class_s]) p (x :: t))
        with ((x =? ESC) && matches_at [Star class_dot; Lit LF; Lit GT; Opt class_s] (Some x) t).
      split.
      + intros H. apply andb_prop in H as [Hx H]. apply N.eqb_eq in Hx. subst x.
        apply matches_dot_star in H as (line & suf & -> & Hl). now exists line, suf.
      + intros (line & suf & H & Hl). inversion H; subst. rewrite N.eqb_refl. cbn [andb].
        apply matches_dot_star. now exists line, suf. }
  change (matches_at (Bol :: Lit ESC :: [Star class_dot; Lit LF; Lit GT; Opt class_s]) prev t)
    with (match prev with
          | None => matches_at (Lit ESC :: [Star class_dot; Lit LF; Lit GT; Opt class_s]) prev t
          | Some p => isLineTerminator p && matches_at (Lit ESC :: [Star class_dot; Lit LF; Lit GT; Opt class_s]) prev t
          end).
  destruct prev as [p|].
  - rewrite andb_true_iff, E. tauto.
  - rewrite E. tauto.
Qed.

(** [search] finds a match at the first position or after some
    character of the subject. *)
Lemma search_iff r : forall t prev,
  search r prev t = true <->
  matches_at r prev t = true \/
  exists pre c rest, t = pre ++ c :: rest /\ matches_at r (Some c) rest = true.
Proof.
  induction t as [|x t IH]; intros prev.
  - cbn [search]. rewrite orb_false_r. split; [auto|].
    intros [H|(pre & c & rest & H & _)]; [exact H|]. now destruct pre.
  - cbn [search]. rewrite orb_true_iff, IH. split.
    + intros [H|[H|(pre & c & rest & -> & H)]]; [now left| |].
      * right. now exists [], x, t.
      * right. now exists (x :: pre), c, rest.
    + intros [H|(pre & c & rest & H & Hm)]; [now left|]. right.
      destruct pre as [|y pre]; cbn in H; inversion H; subst.
      * now left.
      * right. now exists pre, c, rest.
Qed.

(** X1. The chunks the completion pattern matches are exactly those
    that hold, at the start of the chunk or right after a line
    terminator, an ESC, then any characters of the same line, then a
    newline and ">". *)
Lemma completion_pattern_shape t :
  test completion_pattern t = true <-> marker_shape t.
Proof.
  unfold test, marker_shape. rewrite search_iff, matches_completion. split.
  - intros [(_ & line & suf & -> & Hl)|(pre & c & rest & -> & H)].
    + exists [], line, suf. repeat split; [now left | exact Hl].
    + apply matches_completion in H as (Hc & line & suf & -> & Hl).
      exists (pre ++ [c]), line, suf. rewrite <- app_assoc. repeat split; [|exact Hl].
      right. now exists pre, c.
  - intros (pre & line & suf & -> & [->|(pre' & c & -> & Hc)] & Hl).
    + left. split; [exact I|]. now exists line, suf.
    + right. exists pre', c, (ESC :: line ++ LF :: GT :: suf). rewrite <- app_assoc.
      split; [reflexivity|]. apply matches_completion. split; [exact Hc|]. now exists line, suf.
Qed.

(** *** One pending call *)

(** On an idle session [prompt] returns a new call, which is listening
    with an empty buffer and no timer. *)
Lemma prompt_idle b w text :
  idle b w ->
  prompt text w = (Return (List.length (calls w)), snd (prompt text w)) /\
  listening (List.length (calls w)) b [] None (snd (prompt text w)).
Proof.
  intros (Hb & (pr & Hpr & Hd & He) & Ht).
  unfold prompt. rewrite Hb. cbn. split; [reflexivity|].
  unfold listening; cbn. repeat split.
  - apply nth_error_snoc.
  - rewrite !update_update. eexists. split.
    + apply nth_error_update. exact Hpr.
    + cbn. rewrite Hd, He. split; reflexivity.
  - exact Ht.
Qed.

(** A chunk that does not match: the old timer is cleared, a new one is
    armed for 4000 ms from now, the chunk is appended. *)
Lemma chunk_no_match c b acc dl w t :
  listening c b acc dl w ->
  test completion_pattern t = false ->
  listening c b (acc ++ t) (Some (next_timer w, now w + IDLE_MS)) (emit_data b t w)
  /\ now (emit_data b t w) = now w.
Proof.
  intros (Hc & (pr & Hpr & Hd & He) & Ht) Hm.
  unfold emit_data. rewrite Hpr, Hd. cbn [fold_left call_listener].
  unfold onStdoutData. rewrite Hc, Hm. cbn [timeoutId].
  assert (Hclr : timers match option_map fst dl with
                        | Some id => clearTimeout id w
                        | None => w
                        end = []).
  { destruct dl as [[id d]|]; cbn in *; rewrite Ht; cbn; [|reflexivity].
    now rewrite Nat.eqb_refl. }
  destruct dl as [[id d]|]; cbn in *; rewrite ?Ht; cbn;
    rewrite ?Nat.eqb_refl; cbn; (split; [|reflexivity]);
    unfold listening; cbn; rewrite update_update;
    (repeat split; [ now rewrite (nth_error_update _ _ _ _ Hc) | eauto ]).
Qed.

(** [terminateAndResolve] on the one listening call: the promise is
    resolved with the cleaned text and both listeners are removed. *)
Lemma terminate_listening c b acc tmr pr fr w :
  nth_error (calls w) c = Some (mkCall b acc tmr Pending) ->
  nth_error (procs w) b = Some pr ->
  data_listeners pr = [OnStdoutData c] ->
  error_listeners pr = [OnStdoutError c] ->
  let w' := terminateAndResolve c fr w in
  nth_error (calls w') c = Some (mkCall b acc tmr (Resolved (cleaned fr))) /\
  nth_error (procs w') b = Some (mkProc (argv pr) (stdin pr) (kills pr) [] []) /\
  timers w' = timers w /\ now w' = now w /\ next_timer w' = next_timer w /\
  bot w' = bot w.
Proof.
  intros Hc Hpr Hd He. unfold terminateAndResolve. rewrite Hc. cbn.
  repeat split.
  - now rewrite (nth_error_update _ _ _ _ Hc).
  - rewrite update_update, (nth_error_update _ _ _ _ Hpr). cbn.
    rewrite Hd, He. cbn. now rewrite !Nat.eqb_refl.
Qed.

(** A chunk that matches: the timer is cleared and the promise resolved
    with the buffer as it was; the chunk is appended afterwards. *)
Lemma chunk_match c b acc dl w t :
  listening c b acc dl w ->
  test completion_pattern t = true ->
  let w' := emit_data b t w in
  outcome c w' = Some (Resolved (cleaned acc)) /\
  buffer c w' = Some (acc ++ t) /\
  timers w' = [] /\
  now w' = now w /\
  (exists pr, nth_error (procs w') b = Some pr /\
              data_listeners pr = [] /\ error_listeners pr = []).
Proof.
  intros (Hc & (pr & Hpr & Hd & He) & Ht) Hm.
  unfold emit_data. rewrite Hpr, Hd. cbn [fold_left call_listener].
  unfold onStdoutData. rewrite Hc, Hm. cbn [timeoutId response].
  set (w1 := match option_map fst dl with
             | Some id => clearTimeout id w
             | None => w
             end).
  assert (H1 : calls w1 = calls w /\ procs w1 = procs w /\ timers w1 = [] /\ now w1 = now w).
  { subst w1. destruct dl as [[id d]|]; cbn in *; rewrite Ht; cbn;
      rewrite ?Nat.eqb_refl; auto. }
  destruct H1 as (Hc1 & Hp1 & Ht1 & Hn1).
  rewrite <- Hc1 in Hc. rewrite <- Hp1 in Hpr.
  destruct (terminate_listening c b acc _ pr acc w1 Hc Hpr Hd He)
    as (Tc & Tp & Tt & Tn & _).
  unfold outcome, buffer. cbn.
  rewrite (nth_error_update _ _ _ _ Tc). cbn.
  repeat split; try congruence. eauto.
Qed.

(** Time passing short of the deadline changes nothing but the clock. *)
Lemma elapse_short c b acc dl w ms :
  listening c b acc dl w ->
  match dl with Some (_, d) => now w + ms < d | None => True end ->
  listening c b acc dl (elapse ms w) /\
  now (elapse ms w) = now w + ms /\ next_timer (elapse ms w) = next_timer w.
Proof.
  intros (Hc & Hp & Ht) Hlt. unfold elapse. rewrite Ht.
  destruct dl as [[id d]|]; cbn.
  - apply N.leb_gt in Hlt. rewrite Hlt. cbn. unfold listening. cbn. auto.
  - unfold listening. cbn. auto.
Qed.

(** Time passing up to the deadline fires the timer, which resolves the
    promise with the cleaned buffer. *)
Lemma elapse_idle c b acc id d w ms :
  listening c b acc (Some (id, d)) w ->
  d <= now w + ms ->
  let w' := elapse ms w in
  outcome c w' = Some (Resolved (cleaned acc)) /\
  buffer c w' = Some acc /\
  timers w' = [] /\
  now w' = now w + ms /\
  (exists pr, nth_error (procs w') b = Some pr /\
              data_listeners pr = [] /\ error_listeners pr = []).
Proof.
  intros (Hc & (pr & Hpr & Hd & He) & Ht) Hle. unfold elapse. rewrite Ht.
  cbn. apply N.leb_le in Hle. rewrite Hle. cbn.
  unfold timer_callback. cbn. rewrite Hc. cbn [response].
  set (w1 := set_timers [] (next_timer w) w).
  destruct (terminate_listening c b acc (Some id) pr acc w1 Hc Hpr Hd He)
    as (Tc & Tp & Tt & Tn & _).
  unfold outcome, buffer. cbn. rewrite Tc. cbn. repeat split; eauto.
Qed.

(** A run of quiet arrivals keeps the call listening, with everything
    received in its buffer. *)
Lemma run_arrivals c b : forall cs acc dl w,
  listening c b acc dl w ->
  match dl with Some (_, d) => d = now w + IDLE_MS | None => True end ->
  all_quiet cs = true ->
  let w' := run w (arrivals b cs) in
  exists dl',
    listening c b (acc ++ texts cs) dl' w' /\
    match dl' with Some (_, d) => d = now w' + IDLE_MS | None => True end /\
    (cs <> [] -> dl' <> None).
Proof.
  induction cs as [|[gap t] cs IH]; intros acc dl w HL Hd Hq; cbn.
  - exists dl. unfold texts. cbn. rewrite app_nil_r.
    split; [exact HL|]. split; [exact Hd|]. intros H. now elim H.
  - cbn in Hq. apply andb_prop in Hq as [Hq1 Hq].
    apply andb_prop in Hq1 as [Hgap Hno].
    apply N.ltb_lt in Hgap. apply negb_true_iff in Hno.
    destruct (elapse_short c b acc dl w gap HL) as (HL1 & Hn1 & _).
    { destruct dl as [[id d]|]; [|exact I]. subst d. unfold IDLE_MS in *. lia. }
    destruct (chunk_no_match c b acc dl _ t HL1 Hno) as (HL2 & Hn2).
    destruct (IH (acc ++ t) _ _ HL2) as (dl' & HL3 & Hd3 & Hne); [now rewrite Hn2| exact Hq |].
    destruct cs as [|x cs'].
    + cbn in *. eexists. unfold texts. cbn. rewrite app_nil_r.
      split; [exact HL2|]. split; [now rewrite Hn2 | discriminate].
    + exists dl'. unfold texts in *. cbn [map List.concat] in *.
      rewrite <- app_assoc in HL3. split; [exact HL3|]. split; [exact Hd3|].
      intros _. apply Hne. discriminate.
Qed.

Lemma run_app w es1 es2 : run w (es1 ++ es2) = run (run w es1) es2.
Proof. unfold run. apply fold_left_app. Qed.

Lemma arrivals_app b cs1 cs2 : arrivals b (cs1 ++ cs2) = arrivals b cs1 ++ arrivals b cs2.
Proof. unfold arrivals. apply flat_map_app. Qed.

Lemma cleaned_prefix s : exists suffix, s = cleaned s ++ suffix.
Proof.
  unfold cleaned, slice_0_m1. destruct (endsWith s (js ">")).
  - exists (skipn (List.length s - 1) s). symmetry. apply firstn_skipn.
  - exists []. now rewrite app_nil_r.
Qed.

Lemma response_settle s pc : response (settle s pc) = response pc.
Proof. unfold settle. now destruct (promise pc). Qed.

(** Whatever else a chunk does to a call, it is appended to the call's
    buffer, and to no other buffer. *)
Lemma buffer_onStdoutData c c' t w :
  buffer c' (onStdoutData c t w) =
  if Nat.eqb c' c then option_map (fun r => r ++ t) (buffer c w) else buffer c' w.
Proof.
  unfold buffer, onStdoutData.
  destruct (nth_error (calls w) c) as [pc|] eqn:E.
  - set (w1 := match timeoutId pc with Some id => clearTimeout id w | None => w end).
    assert (Hc1 : calls w1 = calls w) by (subst w1; now destruct (timeoutId pc)).
    destruct (test completion_pattern t).
    + unfold terminateAndResolve. rewrite Hc1, E. cbn.
      rewrite update_update, nth_error_update_any, Hc1.
      destruct (Nat.eqb_spec c' c) as [->|]; [|reflexivity].
      rewrite E. cbn. now rewrite response_settle.
    + cbn. rewrite update_update, nth_error_update_any, Hc1.
      destruct (Nat.eqb_spec c' c) as [->|]; [|reflexivity].
      now rewrite E.
  - destruct (Nat.eqb_spec c' c) as [->|]; [|reflexivity]. now rewrite E.
Qed.

(** At the level of the listener, in any world: when the chunk matches
    and the call is pending, the promise is resolved with the buffer as
    it was before the chunk, and the chunk is appended afterwards. *)
Lemma onStdoutData_match_resolves_before_append c t w pc :
  nth_error (calls w) c = Some pc ->
  promise pc = Pending ->
  test completion_pattern t = true ->
  outcome c (onStdoutData c t w) = Some (Resolved (cleaned (response pc))) /\
  buffer c (onStdoutData c t w) = Some (response pc ++ t).
Proof.
  intros Hc Hp Hm. split.
  - unfold outcome, onStdoutData. rewrite Hc, Hm.
    set (w1 := match timeoutId pc with Some id => clearTimeout id w | None => w end).
    assert (Hc1 : calls w1 = calls w) by (subst w1; now destruct (timeoutId pc)).
    unfold terminateAndResolve. rewrite Hc1, Hc. cbn.
    rewrite update_update, nth_error_update_any, Nat.eqb_refl, Hc1, Hc. cbn.
    unfold settle. now rewrite Hp.
  - rewrite buffer_onStdoutData, Nat.eqb_refl. unfold buffer. now rewrite Hc.
Qed.

Lemma booted_idle : idle 0 booted.
Proof.
  unfold idle. cbn. repeat split. eexists. repeat split.
Qed.

Lemma bot_terminate c fr w : bot (terminateAndResolve c fr w) = bot w.
Proof. unfold terminateAndResolve. now destruct (nth_error (calls w) c). Qed.
Lemma bot_call_listener p payload l w : bot (call_listener p payload l w) = bot w.
Proof.
  destruct l as [o|c|c]; cbn.
  - unfold startupListener. now destruct (negb (includes_char payload GT)).
  - unfold onStdoutData. destruct (nth_error (calls w) c) as [pc|]; [|reflexivity].
    destruct (test completion_pattern payload); cbn.
    + rewrite bot_terminate. now destruct (timeoutId pc).
    + now destruct (timeoutId pc).
  - unfold onStdoutError. now destruct (nth_error (calls w) c).
Qed.
Lemma bot_listeners p payload : forall ls w,
  bot (fold_left (fun w' l => call_listener p payload l w') ls w) = bot w.
Proof.
  induction ls as [|l ls IH]; intros w; cbn; [reflexivity|].
  now rewrite IH, bot_call_listener.
Qed.
Lemma bot_timers : forall ts w,
  bot (fold_left (fun w' t => timer_callback t w') ts w) = bot w.
Proof.
  induction ts as [|t ts IH]; intros w; cbn; [reflexivity|]. rewrite IH.
  unfold timer_callback. destruct (nth_error (calls w) (owner t)); [apply bot_terminate | reflexivity].
Qed.
(** No event of the runtime changes [this.bot]: only [open] and [close]
    assign it. *)
Lemma bot_step w e : bot (step w e) = bot w.
Proof.
  destruct e as [p t|p err|ms]; cbn.
  - unfold emit_data. destruct (nth_error (procs w) p); [apply bot_listeners | reflexivity].
  - unfold emit_error. destruct (nth_error (procs w) p) as [pr|]; [|reflexivity].
    destruct (error_listeners pr) as [|l ls]; [reflexivity|]. apply bot_listeners.
  - unfold elapse. cbn. now rewrite bot_timers.
Qed.
Lemma bot_run : forall es w, bot (run w es) = bot w.
Proof.
  induction es as [|e es IH]; intros w; [reflexivity|].
  cbn [run fold_left]. fold (run (step w e) es). now rewrite IH, bot_step.
Qed.
Lemma bot_prompt text w : bot (snd (prompt text w)) = bot w.
Proof. unfold prompt. destruct (bot w) eqn:E; cbn; now rewrite ?E. Qed.

Lemma close_keeps (w : World) :
  List.length (procs (close w)) = List.length (procs w) /\
  executablePath (close w) = executablePath w /\
  modelPath (close w) = modelPath w /\
  decoderConfig (close w) = decoderConfig w /\
  calls (close w) = calls w /\ openings (close w) = openings w.
Proof.
  unfold close. destruct (bot w); cbn; [rewrite update_length|]; repeat split.
Qed.

(** [open] followed by a first chunk holding ">" leaves a session with
    nothing pending, whatever process was there before, provided every
    value of the configuration stringifies and no timer of an earlier
    call is still armed. *)
Lemma open_then_marker_idle (w : World) (t : jsstring) (flags : list jsstring) :
  timers w = [] ->
  config_args (decoderConfig w) = Return flags ->
  includes_char t GT = true ->
  idle (List.length (procs w)) (emit_data (List.length (procs w)) t (snd (open w))).
Proof.
  intros Ht Hcfg Hgt.
  destruct (close_keeps w) as (Hlen & _ & _ & Hd & _ & _).
  assert (Htc : timers (close w) = []).
  { unfold close. destruct (bot w); cbn; auto. }
  unfold open. rewrite Hd, Hcfg. cbn. rewrite Hlen.
  set (ps := procs (close w)) in *. rewrite <- Hlen.
  unfold emit_data. cbn. rewrite update_snoc, nth_error_snoc. cbn.
  unfold startupListener. rewrite Hgt. cbn.
  unfold idle. cbn. split; [reflexivity|]. split; [|exact Htc].
  eexists. rewrite !update_snoc. split; [apply nth_error_snoc|].
  cbn. rewrite Nat.eqb_refl. now split.
Qed.

(** *** Arrivals whose first chunk may come late *)

Lemma in_time_all_quiet : forall cs,
  in_time true 0 (map fst cs) = true -> no_match cs = true -> all_quiet cs = true.
Proof.
  induction cs as [|[g t] cs IH]; intros Ht Hm; [reflexivity|].
  cbn [map fst in_time negb orb] in Ht. rewrite N.add_0_l in Ht.
  cbn [no_match forallb snd] in Hm.
  apply andb_prop in Ht as [Hg Ht]. apply andb_prop in Hm as [Hn Hm].
  specialize (IH Ht Hm). unfold all_quiet in *. cbn [forallb fst snd].
  now rewrite Hg, Hn, IH.
Qed.

(** From a call that has no timer armed, calm arrivals keep the call
    listening with everything received in its buffer; unless there was
    no chunk at all, a timer is then armed, due 4000 ms from now. *)
Lemma run_calm c b cs acc w :
  listening c b acc None w ->
  calm cs = true ->
  let w' := run w (arrivals b cs) in
  exists dl,
    listening c b (acc ++ texts cs) dl w' /\
    due_after 0 dl w' /\
    is_armed dl = started cs.
Proof.
  intros HL Hc. destruct cs as [|[g t] cs].
  - exists None. unfold texts. cbn. rewrite app_nil_r.
    split; [exact HL|]. split; [exact I | reflexivity].
  - unfold calm in Hc. cbn in Hc. apply andb_prop in Hc as [Ht Hm].
    apply andb_prop in Hm as [Hn Hm]. apply negb_true_iff in Hn.
    destruct (elapse_short c b acc None w g HL I) as (HL1 & _).
    destruct (chunk_no_match c b acc None _ t HL1 Hn) as (HL2 & Hn2).
    destruct (run_arrivals c b cs (acc ++ t) _ _ HL2) as (dl & HL3 & Hd & Hne);
      [now rewrite Hn2 | now apply in_time_all_quiet |].
    cbn [arrivals flat_map app fst snd run fold_left step].
    change (fold_left step (flat_map (fun gc => [Elapse (fst gc); Data b (snd gc)]) cs)
              (emit_data b t (elapse g w)))
      with (run (emit_data b t (elapse g w)) (arrivals b cs)).
    destruct cs as [|x cs'].
    + cbn [arrivals flat_map run fold_left]. eexists. unfold texts. cbn. rewrite app_nil_r.
      split; [exact HL2|]. split; [|reflexivity].
      unfold due_after. now rewrite Hn2, N.add_0_r.
    + exists dl. unfold texts in *. cbn [map List.concat snd] in *.
      rewrite <- app_assoc in HL3. split; [exact HL3|]. split.
      * destruct dl as [[id d]|]; [|exact I]. unfold due_after. now rewrite Hd, N.add_0_r.
      * destruct dl; [reflexivity|]. exfalso. apply Hne; [discriminate | reflexivity].
Qed.

(** *** Two pending calls *)

(** What a chunk that does not match does in the listener of call [c]. *)
Lemma onStdoutData_quiet_effect c t w pc :
  nth_error (calls w) c = Some pc ->
  test completion_pattern t = false ->
  let w' := onStdoutData c t w in
  calls w' = update c (fun q => mkCall (pc_bot q) (response q ++ t)
                                       (Some (next_timer w)) (promise q)) (calls w) /\
  procs w' = procs w /\
  timers w' = match timeoutId pc with
              | Some id => filter (fun x => negb (Nat.eqb (tid x) id)) (timers w)
              | None => timers w
              end ++ [mkTimer (next_timer w) (now w + IDLE_MS) c] /\
  next_timer w' = S (next_timer w) /\
  now w' = now w.
Proof.
  intros Hc Hm. unfold onStdoutData. rewrite Hc, Hm.
  destruct (timeoutId pc) as [id|]; cbn; rewrite update_update; repeat split.
Qed.

Lemma two_chunk c1 c2 b acc1 acc2 dl1 dl2 w t :
  listening2 c1 c2 b acc1 acc2 dl1 dl2 w ->
  test completion_pattern t = false ->
  let w' := emit_data b t w in
  listening2 c1 c2 b (acc1 ++ t) (acc2 ++ t)
             (Some (next_timer w, now w + IDLE_MS))
             (Some (S (next_timer w), now w + IDLE_MS)) w' /\
  now w' = now w.
Proof.
  intros (Hne & H1 & H2 & (pr & Hpr & Hd & He) & Ht & Hid) Hm.
  unfold emit_data. rewrite Hpr, Hd. cbn [fold_left call_listener].
  destruct (onStdoutData_quiet_effect c1 t w _ H1 Hm) as (Ac & Ap & At & An & Aw).
  set (wa := onStdoutData c1 t w) in *.
  assert (H2a : nth_error (calls wa) c2 = Some (mkCall b acc2 (option_map fst dl2) Pending)).
  { rewrite Ac, nth_error_update_any.
    replace (Nat.eqb c2 c1) with false by (symmetry; apply Nat.eqb_neq; auto). exact H2. }
  destruct (onStdoutData_quiet_effect c2 t wa _ H2a Hm) as (Bc & Bp & Bt & Bn & Bw).
  set (wb := onStdoutData c2 t wa) in *.
  split; [|now rewrite Bw, Aw].
  unfold listening2. split; [exact Hne|].
  split.
  { rewrite Bc, nth_error_update_any.
    replace (Nat.eqb c1 c2) with false by (symmetry; apply Nat.eqb_neq; auto).
    rewrite Ac, (nth_error_update _ _ _ _ H1). reflexivity. }
  split.
  { rewrite Bc, (nth_error_update _ _ _ _ H2a). cbn. now rewrite An. }
  split; [exists pr; rewrite Bp, Ap; auto|].
  split.
  - rewrite Bt, At, Ht, Aw, An. cbn [timeoutId].
    destruct dl1 as [[i1 d1]|], dl2 as [[i2 d2]|];
      cbn [option_map fst armed app filter tid negb].
    + destruct Hid as (Hlt & Hneq).
      rewrite Nat.eqb_refl.
      replace (Nat.eqb i2 i1) with false by (symmetry; apply Nat.eqb_neq; auto).
      cbn [negb app filter tid]. rewrite Nat.eqb_refl.
      replace (Nat.eqb (next_timer w) i2) with false by (symmetry; apply Nat.eqb_neq; lia).
      reflexivity.
    + rewrite Nat.eqb_refl. reflexivity.
    + destruct Hid as (Hlt & _). rewrite Nat.eqb_refl.
      replace (Nat.eqb (next_timer w) i2) with false by (symmetry; apply Nat.eqb_neq; lia).
      reflexivity.
    + reflexivity.
  - rewrite Bn, An. split; lia.
Qed.

Lemma two_elapse c1 c2 b acc1 acc2 dl1 dl2 w s g :
  listening2 c1 c2 b acc1 acc2 dl1 dl2 w ->
  due_after s dl1 w -> due_after s dl2 w ->
  negb (is_armed dl1 || is_armed dl2) || (s + g <? IDLE_MS) = true ->
  let w' := elapse g w in
  listening2 c1 c2 b acc1 acc2 dl1 dl2 w' /\
  due_after (s + g) dl1 w' /\ due_after (s + g) dl2 w' /\
  now w' = now w + g.
Proof.
  intros (Hne & H1 & H2 & Hp & Ht & Hid) D1 D2 Hg.
  assert (Hnot : forall id d, (dl1 = Some (id, d) \/ dl2 = Some (id, d)) ->
                 (d <=? now w + g) = false).
  { intros id d Hin. apply N.leb_gt.
    assert (Hs : s + g < IDLE_MS).
    { destruct Hin as [E|E]; rewrite E in Hg; cbn in Hg;
        rewrite ?orb_true_r in Hg; cbn in Hg; now apply N.ltb_lt in Hg. }
    destruct Hin as [E|E]; [rewrite E in D1; cbn in D1 | rewrite E in D2; cbn in D2];
      unfold IDLE_MS in *; lia. }
  unfold elapse. rewrite Ht.
  assert (Hdue : filter (fun t => deadline t <=? now w + g) (armed c1 dl1 ++ armed c2 dl2) = []
              /\ filter (fun t => negb (deadline t <=? now w + g)) (armed c1 dl1 ++ armed c2 dl2)
                 = armed c1 dl1 ++ armed c2 dl2).
  { destruct dl1 as [[i1 d1]|], dl2 as [[i2 d2]|]; cbn;
      rewrite ?(Hnot i1 d1), ?(Hnot i2 d2) by auto; cbn;
      rewrite ?(Hnot i2 d2) by auto; cbn; auto. }
  destruct Hdue as (Hd1 & Hd2). rewrite Hd1, Hd2. cbn.
  split; [unfold listening2; cbn; repeat split; auto|].
  unfold due_after in *. cbn [now set_now].
  split; [destruct dl1 as [[i1 d1]|]; [lia | exact I]|].
  split; [destruct dl2 as [[i2 d2]|]; [lia | exact I]|].
  reflexivity.
Qed.

(** Arrivals that complete neither of two pending calls keep both
    listening, with every chunk in both buffers. *)
Lemma run_two c1 c2 b : forall later acc1 acc2 dl1 dl2 s w rest,
  listening2 c1 c2 b acc1 acc2 dl1 dl2 w ->
  due_after s dl1 w -> due_after s dl2 w ->
  in_time (is_armed dl1 || is_armed dl2) s (map fst later ++ rest) = true ->
  no_match later = true ->
  let w' := run w (arrivals b later) in
  exists dl1' dl2' s',
    listening2 c1 c2 b (acc1 ++ texts later) (acc2 ++ texts later) dl1' dl2' w' /\
    due_after s' dl1' w' /\ due_after s' dl2' w' /\
    in_time (is_armed dl1' || is_armed dl2') s' rest = true.
Proof.
  induction later as [|[g t] later IH]; intros acc1 acc2 dl1 dl2 s w rest HL D1 D2 Ht Hm.
  - exists dl1, dl2, s. unfold texts. cbn. rewrite !app_nil_r. auto.
  - cbn [map fst app in_time] in Ht. apply andb_prop in Ht as [Hg Ht].
    cbn [no_match forallb snd] in Hm. apply andb_prop in Hm as [Hn Hm].
    apply negb_true_iff in Hn.
    destruct (two_elapse c1 c2 b acc1 acc2 dl1 dl2 w s g HL D1 D2 Hg) as (HL1 & _ & _ & _).
    destruct (two_chunk c1 c2 b acc1 acc2 dl1 dl2 _ t HL1 Hn) as (HL2 & Hn2).
    cbn [arrivals flat_map app fst snd run fold_left step].
    change (fold_left step (flat_map (fun gc => [Elapse (fst gc); Data b (snd gc)]) later)
              (emit_data b t (elapse g w)))
      with (run (emit_data b t (elapse g w)) (arrivals b later)).
    destruct (IH (acc1 ++ t) (acc2 ++ t) _ _ 0 _ rest HL2) as (dl1' & dl2' & s' & HL3 & F);
      [unfold due_after; now rewrite Hn2, N.add_0_r
      |unfold due_after; now rewrite Hn2, N.add_0_r
      |exact Ht | exact Hm |].
    exists dl1', dl2', s'. unfold texts in *. cbn [map List.concat snd].
    rewrite !app_assoc. split; [exact HL3 | exact F].
Qed.

(** A prompt issued while call [c1] is the one listening on the open
    session: it is written at once and its listeners go next to those
    of [c1]. *)
Lemma second_prompt_listening2 c1 b acc dl w text :
  listening c1 b acc dl w ->
  bot w = Some b ->
  let c2 := List.length (calls w) in
  let w' := snd (prompt text w) in
  fst (prompt text w) = Return c2 /\
  listening2 c1 c2 b acc [] dl None w' /\
  now w' = now w /\
  (exists pr pr', nth_error (procs w) b = Some pr /\ nth_error (procs w') b = Some pr' /\
                  stdin pr' = stdin pr ++ [text ++ [LF]]).
Proof.
  intros (Hc & (pr & Hpr & Hd & He) & Ht) Hb c2 w'.
  assert (Hlt : (c1 < c2)%nat) by (subst c2; apply nth_error_Some; now rewrite Hc).
  subst w'. unfold prompt. rewrite Hb. cbn.
  split; [reflexivity|]. split; [|split; [reflexivity|]].
  - unfold listening2. cbn. split; [lia|].
    split; [rewrite nth_error_app1 by exact Hlt; exact Hc|].
    split; [apply nth_error_snoc|].
    split; [|split; [rewrite Ht; now rewrite app_nil_r | exact I]].
    rewrite !update_update. eexists. split; [apply (nth_error_update _ _ _ _ Hpr)|].
    cbn. now rewrite Hd, He.
  - rewrite !update_update. exists pr. eexists.
    split; [exact Hpr|]. split; [apply (nth_error_update _ _ _ _ Hpr)|]. reflexivity.
Qed.

(** *** [prompt] without a session *)

(** C7. With no subprocess handle, [prompt] throws at once: it returns
    the error "Bot is not initialized." synchronously and leaves the
    world as it was, so nothing is written to any subprocess input. *)
Theorem prompt_without_session_throws (text : jsstring) (w : World) :
  bot w = None ->
  prompt text w = (Throw (js "Bot is not initialized."), w).
Proof. intros H. unfold prompt. now rewrite H. Qed.

Lemma prompt_without_session_throws_witness :
  prompt (js "hi") fresh = (Throw (js "Bot is not initialized."), fresh).
Proof. apply (prompt_without_session_throws (js "hi") fresh). reflexivity. Defined.

(** *** [close] *)

Lemma kills_update_le (b : nat) : forall ps,
  (fold_right (fun pr n => kills pr + n) 0
     (update b (fun pr => mkProc (argv pr) (stdin pr) (S (kills pr))
                                 (data_listeners pr) (error_listeners pr)) ps)
   <= S (fold_right (fun pr n => kills pr + n) 0 ps))%nat.
Proof.
  induction b as [|b IH]; intros [|p ps]; cbn; try lia.
  specialize (IH ps). lia.
Qed.

(** C8. [close] is idempotent: a second [close] changes nothing, the
    closed world is left as it is, the handle is cleared, and the two
    calls together kill at most one process once. *)
Theorem close_idempotent (w : World) :
  close (close w) = close w /\
  close (set_bot None w) = set_bot None w /\
  bot (close w) = None /\
  (total_kills (close (close w)) <= S (total_kills w))%nat.
Proof.
  unfold close. destruct (bot w) as [b|] eqn:Hb; cbn; rewrite ?Hb; repeat split.
  - unfold total_kills. cbn. apply kills_update_le.
  - lia.
Qed.

(** *** Completion by the pattern *)

(** C9. When a chunk matching the completion pattern ends the call, the
    promise resolves with what the chunks received before it
    accumulated, less one trailing ">": the value is a prefix of that
    earlier text and holds nothing of the matching chunk, which is only
    appended to the buffer after the promise is resolved. *)
Theorem pattern_match_excludes_matching_chunk
    (b : nat) (w : World) (text : jsstring)
    (cs : list (N * jsstring)) (gap : N) (m : jsstring) :
  idle b w ->
  all_quiet cs = true ->
  gap < IDLE_MS ->
  test completion_pattern m = true ->
  let c := List.length (calls w) in
  let w' := run (snd (prompt text w)) (arrivals b (cs ++ [(gap, m)])) in
  outcome c w' = Some (Resolved (cleaned (texts cs))) /\
  (exists suffix, texts cs = cleaned (texts cs) ++ suffix) /\
  buffer c w' = Some (texts cs ++ m).
Proof.
  intros Hidle Hq Hgap Hm c w'.
  destruct (prompt_idle b w text Hidle) as (_ & HL).
  destruct (run_arrivals c b cs [] None _ HL I Hq) as (dl & HL1 & Hd & _).
  subst w'. rewrite arrivals_app, run_app. cbn [arrivals flat_map app fst snd run fold_left step].
  fold (run (snd (prompt text w)) (arrivals b cs)).
  set (w1 := run (snd (prompt text w)) (arrivals b cs)) in *.
  destruct (elapse_short c b _ dl w1 gap HL1) as (HL2 & _).
  { destruct dl as [[id d]|]; [|exact I]. subst d. unfold IDLE_MS in *. lia. }
  destruct (chunk_match c b _ dl _ m HL2 Hm) as (Ho & Hb & _).
  cbn [app] in *. split; [exact Ho|]. split; [apply cleaned_prefix | exact Hb].
Qed.

Lemma pattern_match_excludes_matching_chunk_witness :
  outcome 0 (run (snd (prompt (js "hi") booted))
                 (arrivals 0 ([(10, js "one>"); (20, js " two>")] ++ [(30, marker_chunk)])))
  = Some (Resolved (js "one> two")).
Proof.
  apply (pattern_match_excludes_matching_chunk 0 booted (js "hi")
           [(10, js "one>"); (20, js " two>")] 30 marker_chunk).
  - unfold idle. cbn. repeat split. eexists. repeat split.
  - reflexivity.
  - reflexivity.
  - reflexivity.
Defined.




(** *** Completion by the idle timer *)

(** C4, as the code has it.  The first chunk may come any time after
    the prompt, for no timer is armed before it.  While chunks that do
    not match keep arriving, exactly one timer is armed, due 4000 ms
    after the last chunk: each chunk cleared the one before and armed
    its own.  Less than 4000 ms of silence leave the call pending;
    4000 ms or more resolve it with the accumulated text, less one
    trailing ">" when it ends with one. *)
Theorem idle_timeout_resolves_cleaned
    (b : nat) (w : World) (text : jsstring)
    (cs : list (N * jsstring)) (gap : N) (t : jsstring) (ms : N) :
  idle b w ->
  calm (cs ++ [(gap, t)]) = true ->
  IDLE_MS <= ms ->
  let c := List.length (calls w) in
  let w1 := run (snd (prompt text w)) (arrivals b (cs ++ [(gap, t)])) in
  (exists id, timers w1 = [mkTimer id (now w1 + IDLE_MS) c]) /\
  outcome c w1 = Some Pending /\
  (forall d, d < IDLE_MS -> outcome c (run w1 [Elapse d]) = Some Pending) /\
  outcome c (run w1 [Elapse ms]) = Some (Resolved (cleaned (texts cs ++ t))) /\
  timers (run w1 [Elapse ms]) = [].
Proof.
  intros Hidle Hq Hms c w1.
  destruct (prompt_idle b w text Hidle) as (_ & HL).
  destruct (run_calm c b _ [] _ HL Hq) as (dl & HL1 & Hd & Harm).
  fold w1 in HL1, Hd. cbn [app] in HL1.
  assert (Htx : texts (cs ++ [(gap, t)]) = texts cs ++ t).
  { unfold texts. rewrite map_app, concat_app. cbn. now rewrite app_nil_r. }
  rewrite Htx in HL1.
  destruct dl as [[id d]|]; [|destruct cs; discriminate Harm].
  unfold due_after in Hd. rewrite N.add_0_r in Hd. subst d.
  pose proof HL1 as (Hc & _ & Ht). cbn in Hc, Ht.
  split; [eauto|]. split; [unfold outcome; now rewrite Hc|]. split.
  - intros d Hlt. cbn [run fold_left step].
    destruct (elapse_short c b _ _ w1 d HL1) as ((Hc' & _) & _).
    { unfold IDLE_MS in *. lia. }
    unfold outcome. now rewrite Hc'.
  - cbn [run fold_left step].
    destruct (elapse_idle c b _ id _ w1 ms HL1) as (Ho & _ & Ht' & _).
    { unfold IDLE_MS in *. lia. }
    now split.
Qed.

Lemma idle_timeout_resolves_cleaned_witness :
  outcome 0 (run (snd (prompt (js "hi") booted))
                 (arrivals 0 ([] ++ [(5000, js "partial output")])))
  = Some Pending /\
  outcome 0 (run (run (snd (prompt (js "hi") booted))
                      (arrivals 0 ([] ++ [(5000, js "partial output")])))
                 [Elapse 4000])
  = Some (Resolved (js "partial output")).
Proof.
  destruct (idle_timeout_resolves_cleaned 0 booted (js "hi") [] 5000 (js "partial output") 4000)
    as (_ & H1 & _ & H2 & _).
  - unfold idle. cbn. repeat split. eexists. repeat split.
  - reflexivity.
  - discriminate.
  - split; [exact H1 | exact H2].
Defined.

(** C4 as the specification words it fails: a chunk "ok>" followed by
    silence leaves "ok>" in the buffer, and the call resolves with "ok",
    not with the full accumulated text. *)
Lemma idle_timeout_not_full_text :
  test completion_pattern (js "ok>") = false /\
  buffer 0 (run (snd (prompt (js "hi") booted)) [Data 0 (js "ok>"); Elapse 4000])
  = Some (js "ok>") /\
  outcome 0 (run (snd (prompt (js "hi") booted)) [Data 0 (js "ok>"); Elapse 4000])
  <> Some (Resolved (js "ok>")).
Proof. split; [reflexivity|]. split; [reflexivity|]. vm_compute. discriminate. Qed.

(** *** Two prompts at once *)

(** C2, as the code has it.  A second [prompt] issued at any time while
    the first is pending is neither rejected nor queued: it returns a
    promise of its own, which is pending like the first; its text is
    written to the subprocess at once; its data and error listeners are
    installed next to the first call's; and from then on every chunk
    the subprocess emits while the two calls are pending is appended to
    both buffers, the last one here whether it matches the completion
    pattern or not. *)
Theorem second_prompt_shares_the_stream
    (b : nat) (w : World) (first second : jsstring)
    (cs later : list (N * jsstring)) (g gt : N) (t : jsstring) :
  idle b w ->
  calm cs = true ->
  negb (started cs) || (g <? IDLE_MS) = true ->
  in_time (started cs) g (map fst later ++ [gt]) = true ->
  no_match later = true ->
  let c1 := List.length (calls w) in
  let w1 := run (snd (prompt first w)) (arrivals b cs ++ [Elapse g]) in
  let c2 := List.length (calls w1) in
  let w2 := snd (prompt second w1) in
  let w3 := run w2 (arrivals b later) in
  let w4 := run w3 [Elapse gt; Data b t] in
  outcome c1 w1 = Some Pending /\
  fst (prompt second w1) = Return c2 /\
  c1 <> c2 /\
  outcome c1 w2 = Some Pending /\
  outcome c2 w2 = Some Pending /\
  (exists pr1 pr2,
      nth_error (procs w1) b = Some pr1 /\ nth_error (procs w2) b = Some pr2 /\
      stdin pr2 = stdin pr1 ++ [second ++ [LF]] /\
      data_listeners pr2 = [OnStdoutData c1; OnStdoutData c2] /\
      error_listeners pr2 = [OnStdoutError c1; OnStdoutError c2]) /\
  outcome c1 w3 = Some Pending /\
  outcome c2 w3 = Some Pending /\
  buffer c1 w3 = Some (texts cs ++ texts later) /\
  buffer c2 w3 = Some (texts later) /\
  buffer c1 w4 = Some (texts cs ++ texts later ++ t) /\
  buffer c2 w4 = Some (texts later ++ t).
Proof.
  intros Hidle Hcs Hg Hlater Hnm c1 w1 c2 w2 w3 w4.
  destruct (prompt_idle b w first Hidle) as (_ & HL0).
  pose proof Hidle as (Hb & _ & _).
  destruct (run_calm c1 b cs [] _ HL0 Hcs) as (dl & HLA & DA & Harm).
  cbn [app] in HLA.
  assert (E1 : w1 = elapse g (run (snd (prompt first w)) (arrivals b cs))).
  { subst w1. now rewrite run_app. }
  set (wA := run (snd (prompt first w)) (arrivals b cs)) in *.
  assert (Hshort : match dl with Some (_, d) => now wA + g < d | None => True end).
  { destruct dl as [[id d]|]; [|exact I]. cbn in Harm, DA. rewrite <- Harm in Hg.
    cbn in Hg. apply N.ltb_lt in Hg. unfold IDLE_MS in *. lia. }
  destruct (elapse_short c1 b _ dl wA g HLA Hshort) as (HL1 & Hn1 & _).
  rewrite <- E1 in HL1, Hn1.
  assert (D1 : due_after g dl w1).
  { destruct dl as [[id d]|]; [|exact I]. cbn in DA |- *. lia. }
  assert (Hb1 : bot w1 = Some b).
  { rewrite E1. change (elapse g wA) with (step wA (Elapse g)).
    subst wA. now rewrite bot_step, bot_run, bot_prompt. }
  destruct (second_prompt_listening2 c1 b _ dl w1 second HL1 Hb1)
    as (Hret & HL2 & Hn2 & (pr1 & pr2 & Hp1 & Hp2 & Hin)).
  fold c2 w2 in Hret, HL2, Hn2, Hp2.
  assert (D2 : due_after g dl w2).
  { destruct dl as [[id d]|]; [|exact I]. cbn in D1 |- *. now rewrite Hn2. }
  assert (Harm2 : is_armed dl || is_armed None = started cs)
    by (cbn; now rewrite orb_false_r).
  rewrite <- Harm2 in Hlater.
  destruct (run_two c1 c2 b later _ _ dl None g w2 [gt] HL2 D2 I Hlater Hnm)
    as (dl1 & dl2 & s & HL3 & D31 & D32 & Hgt).
  fold w3 in HL3, D31, D32. cbn [app] in HL3.
  cbn [in_time] in Hgt. rewrite andb_true_r in Hgt.
  destruct (two_elapse c1 c2 b _ _ dl1 dl2 w3 s gt HL3 D31 D32 Hgt) as (HL4 & _).
  clearbody c1 c2 w1 w2 w3.
  pose proof HL1 as (Hc1 & _).
  pose proof HL2 as (Hne & H21 & H22 & (pr2' & Hp2' & Hd2 & He2) & _).
  pose proof HL3 as (_ & H31 & H32 & _).
  pose proof HL4 as (_ & H41 & H42 & (pr4 & Hp4 & Hd4 & _) & _).
  rewrite Hp2 in Hp2'. inversion Hp2'; subst pr2'.
  assert (E4 : w4 = onStdoutData c2 t (onStdoutData c1 t (elapse gt w3))).
  { subst w4. cbn [run fold_left step]. unfold emit_data. now rewrite Hp4, Hd4. }
  assert (F1 : buffer c1 w4 = Some (texts cs ++ texts later ++ t)).
  { rewrite E4, !buffer_onStdoutData, Nat.eqb_refl.
    replace (Nat.eqb c1 c2) with false by (symmetry; apply Nat.eqb_neq; auto).
    unfold buffer. rewrite H41. cbn. now rewrite <- app_assoc. }
  assert (F2 : buffer c2 w4 = Some (texts later ++ t)).
  { rewrite E4, !buffer_onStdoutData, Nat.eqb_refl.
    replace (Nat.eqb c2 c1) with false by (symmetry; apply Nat.eqb_neq; auto).
    unfold buffer. now rewrite H42. }
  clearbody w4.
  unfold outcome. rewrite Hc1, H21, H22, H31, H32. cbn [option_map promise].
  unfold buffer at 1 2. rewrite H31, H32. cbn [option_map response].
  repeat (split; [first [reflexivity | assumption | eauto 10]|]).
  exact F2.
Qed.

Lemma second_prompt_shares_the_stream_witness :
  outcome 1 (snd (prompt (js "b")
                    (run (snd (prompt (js "a") booted))
                         (arrivals 0 [(6000, js "x")] ++ [Elapse 100]))))
  = Some Pending /\
  buffer 0 (run (run (snd (prompt (js "b")
                             (run (snd (prompt (js "a") booted))
                                  (arrivals 0 [(6000, js "x")] ++ [Elapse 100]))))
                     (arrivals 0 [(200, js "y")]))
                [Elapse 50; Data 0 marker_chunk])
  = Some (texts [(6000, js "x")] ++ texts [(200, js "y")] ++ marker_chunk) /\
  buffer 1 (run (run (snd (prompt (js "b")
                             (run (snd (prompt (js "a") booted))
                                  (arrivals 0 [(6000, js "x")] ++ [Elapse 100]))))
                     (arrivals 0 [(200, js "y")]))
                [Elapse 50; Data 0 marker_chunk])
  = Some (texts [(200, js "y")] ++ marker_chunk).
Proof.
  destruct (second_prompt_shares_the_stream 0 booted (js "a") (js "b")
              [(6000, js "x")] [(200, js "y")] 100 50 marker_chunk)
    as (_ & _ & _ & _ & H5 & _ & _ & _ & _ & _ & H11 & H12).
  - unfold idle. cbn. repeat split. eexists. repeat split.
  - reflexivity.
  - reflexivity.
  - reflexivity.
  - reflexivity.
  - split; [exact H5|]. split; [exact H11 | exact H12].
Defined.

(** C2 as the specification words it fails: on the booted session a
    second prompt is not rejected, and the chunk "x", arriving while the
    first call is pending, lands in the second call's buffer too. *)
Lemma second_prompt_not_serialized :
  ~ serialized_at booted (js "a") (js "b") (js "x") 0.
Proof.
  unfold serialized_at. cbn. intros [[err H]|H].
  - discriminate H.
  - specialize (H eq_refl). discriminate H.
Qed.

End SessionFacts.

(* ================================================================== *)
(** ** The provisioner *)

Module ProvisionerFacts.
Import Provisioner.

(** *** [init] *)

(** [init] never assigns [downloadPromises]: the field stays [null], so
    the branch that would return the memoized promises is never taken. *)
Lemma init_leaves_downloadPromises_null (force : bool) (g : GPT4All) :
  downloadPromises g = None -> downloadPromises (snd (init force g)) = None.
Proof.
  intros H. unfold init. rewrite H.
  destruct (force || negb (executable_on_disk g)); cbn;
    destruct (force || negb (model_on_disk g)); cbn; exact H.
Qed.

(** C1, at the failing input.  A new object on a machine that has
    neither file; [init()] is called twice in a row.  The second call
    does not return the promises of the first ([0] and [1]): it starts
    the two downloads again and returns promises [2] and [3]. *)
Lemma init_twice_starts_duplicate_downloads :
  match new_GPT4All (js "gpt4all-lora-quantized") false false false with
  | Throw _ => False
  | Return g0 =>
      let (ps1, g1) := init false g0 in
      let (ps2, g2) := init false g1 in
      ps1 = [0; 1]%nat /\ ps2 = [2; 3]%nat /\
      downloadPromises g1 = None /\
      downloads g2 = [TheExecutable; TheModel; TheExecutable; TheModel] /\
      count_downloads TheExecutable g2 = 2%nat /\
      count_downloads TheModel g2 = 2%nat
  end.
Proof. cbn. repeat split. Qed.

(** *** [followRedirects] *)

Section Redirects.

Variable Net : Type.
Variable get : jsstring -> Net -> option IncomingMessage * Net.

Lemma followRedirects_keeps_disk (fuel : nat) : forall url e,
  let e' := snd (followRedirects get fuel url e) in
  homedir e' = homedir e /\ mkdir_ok e' = mkdir_ok e /\
  made_dirs e' = made_dirs e /\ write_streams e' = write_streams e /\
  piped e' = piped e.
Proof.
  induction fuel as [|fuel IH]; intros url e; cbn; [now repeat split|].
  destruct url as [u|]; [|now repeat split].
  destruct (get u (net e)) as [[r|] n']; [|now repeat split].
  destruct (status_is r 301 || status_is r 302); [|now repeat split].
  apply (IH (location r)
            (mkEnv n' (homedir e) (mkdir_ok e) (requests e ++ [u])
                   (made_dirs e) (write_streams e) (piped e))).
Qed.

(** A redirect that names no Location ends in an error, after its
    request was made. *)
Lemma followRedirects_without_location
    (fuel : nat) (u : jsstring) (e : Env Net) (r : IncomingMessage) (n' : Net) :
  get u (net e) = (Some r, n') ->
  status_is r 301 || status_is r 302 = true ->
  location r = None ->
  fst (followRedirects get (S (S fuel)) (Some u) e) = Threw (js "No URL provided").
Proof. intros Hg Hs Hl. cbn. now rewrite Hg, Hs, Hl. Qed.

(** C6. Along a chain of [k] redirects, [followRedirects] returns the
    first answer that is not a redirect, whatever fuel above [k] it is
    given, and makes exactly [k + 1] requests, those of the chain in
    order: four for a chain of three redirects. *)
Theorem followRedirects_follows_chain
    (k : nat) (u : jsstring) (e : Env Net) (final : IncomingMessage)
    (n' : Net) (us : list jsstring) (fuel : nat) :
  redirect_chain get k u (net e) final n' us ->
  (k < fuel)%nat ->
  followRedirects get fuel (Some u) e =
    (Response final,
     mkEnv n' (homedir e) (mkdir_ok e) (requests e ++ us)
           (made_dirs e) (write_streams e) (piped e)) /\
  status_is final 301 || status_is final 302 = false /\
  List.length us = S k.
Proof.
  intros Hch. remember (net e) as n eqn:Hn. revert e Hn fuel.
  induction Hch as [u n r n' Hget Hst | k u n r n1 u' final n' us Hget Hst Hloc Hch IH];
    intros e Hn [|fuel] Hlt; try lia; subst n; cbn; rewrite Hget, Hst.
  - repeat split.
  - rewrite Hloc.
    destruct (IH (mkEnv n1 (homedir e) (mkdir_ok e) (requests e ++ [u])
                        (made_dirs e) (write_streams e) (piped e)) eq_refl fuel)
      as (Hf & Hfin & Hlen); [lia|].
    rewrite Hf. cbn. rewrite <- app_assoc. cbn. repeat split; [exact Hfin | now rewrite Hlen].
Qed.

(** *** [downloadFile] *)

Lemma downloadFile_receive (fuel : nat) (url dest : jsstring) (e e2 : Env Net)
    (resp : IncomingMessage) :
  mkdir_ok e = true ->
  followRedirects get fuel (Some url) (mkdir (nomic_dir e) e) = (Response resp, e2) ->
  downloadFile get fuel url dest e = receive resp dest e2.
Proof.
  intros Hok Hf. unfold downloadFile. cbn [mkdir_ok mkdir]. rewrite Hok. cbn [negb].
  fold (mkdir (nomic_dir e) e). now rewrite Hf.
Qed.

Lemma Number_zero : Number (Some (js "0")) = Val 0.
Proof. reflexivity. Qed.

Lemma zero_is_falsy : truthy (Val 0) = false /\ is_zero (Val 0) = true.
Proof. split; vm_compute; reflexivity. Qed.

(** [Number] on a few header values. *)
Lemma Number_examples :
  Number None = NaN /\
  Number (Some (js "abc")) = NaN /\
  Number (Some (js "12 34")) = NaN /\
  Number (Some (js "1e")) = NaN /\
  Number (Some (js "0x")) = NaN /\
  is_zero (Number (Some (js "")) ) = true /\
  is_zero (Number (Some (js " -0.0e3 "))) = true /\
  truthy (Number (Some (js "1048576"))) = true /\
  truthy (Number (Some (js "0x10"))) = true /\
  Qeq_bool (match Number (Some (js " 12.5e1 ")) with Val q => q | _ => 0 end) (125 # 1) = true /\
  Qeq_bool (match Number (Some (js "0x1F")) with Val q => q | _ => 0 end) (31 # 1) = true /\
  Qeq_bool (match Number (Some (js "25e-1")) with Val q => q | _ => 0 end) (5 # 2) = true.
Proof. repeat split; vm_compute; reflexivity. Qed.

(** C5. When the final response has no content-length, the promise of
    [downloadFile] is rejected: with the no-size message after a 200,
    with the status otherwise.  No write stream has been opened on the
    destination, nothing is piped into it, and no later event of a
    writer turns the rejection into a success. *)
Theorem download_without_content_length_is_rejected
    (fuel : nat) (url dest : jsstring) (e e2 : Env Net) (resp : IncomingMessage) :
  mkdir_ok e = true ->
  followRedirects get fuel (Some url) (mkdir (nomic_dir e) e) = (Response resp, e2) ->
  content_length resp = None ->
  exists r,
    downloadFile get fuel url dest e = (Rejected r, e2) /\
    write_streams e2 = write_streams e /\
    piped e2 = piped e /\
    (forall ev, on_writer_event (Rejected r) ev = Some (Failed r)) /\
    (status_is resp 200 = true -> r = Message no_size).
Proof.
  intros Hok Hf Hcl. rewrite (downloadFile_receive _ _ dest _ _ _ Hok Hf).
  pose proof (followRedirects_keeps_disk fuel (Some url) (mkdir (nomic_dir e) e)) as Hk.
  rewrite Hf in Hk. cbn in Hk. destruct Hk as (_ & _ & _ & Hws & Hpi).
  unfold receive. rewrite Hcl. cbn [Number truthy].
  destruct zero_is_falsy as (_ & Hz). rewrite Hz.
  destruct (status_is resp 200); cbn [negb]; eexists; repeat split; auto; discriminate.
Qed.

(** C10. A content-length of "0", or one that [Number] turns into NaN,
    is treated as no content-length at all: the download behaves as on
    the same response without the header, which after a 200 is the
    rejection with the no-size message. *)
Theorem unusable_content_length_is_like_none
    (fuel : nat) (url dest : jsstring) (e e2 : Env Net) (resp : IncomingMessage)
    (v : jsstring) :
  mkdir_ok e = true ->
  followRedirects get fuel (Some url) (mkdir (nomic_dir e) e) = (Response resp, e2) ->
  content_length resp = Some v ->
  v = js "0" \/ Number (Some v) = NaN ->
  downloadFile get fuel url dest e =
    receive (mkMsg (statusCode resp) (location resp) None) dest e2 /\
  (status_is resp 200 = true ->
   downloadFile get fuel url dest e = (Rejected (Message no_size), e2)).
Proof.
  intros Hok Hf Hcl Hv. rewrite (downloadFile_receive _ _ dest _ _ _ Hok Hf).
  destruct zero_is_falsy as (Hz1 & Hz2).
  assert (Hn : (if truthy (Number (Some v)) then Number (Some v) else Val 0) = Val 0).
  { destruct Hv as [-> | ->]; [rewrite Number_zero, Hz1|]; reflexivity. }
  unfold receive, status_is. cbn [statusCode content_length]. rewrite Hcl, Hn.
  cbn [Number truthy]. rewrite Hz2.
  split; [reflexivity|]. intros H. now rewrite H.
Qed.

End Redirects.

(** A response with a usable content-length is streamed to the
    destination: the write stream is opened and the body piped into it,
    and the promise settles with the writer. *)
Lemma downloadFile_sized_streams :
  let (d, e) := downloadFile mock_get 1 (js "/sized") (js "/home/u/.nomic/gpt4all") mock_env in
  (exists total, d = Streaming total /\ is_zero total = false) /\
  write_streams e = [js "/home/u/.nomic/gpt4all"] /\
  piped e = [js "/home/u/.nomic/gpt4all"] /\
  on_writer_event d Finish = Some Fulfilled.
Proof.
  cbn. split; [|repeat split]. eexists. split; [reflexivity|]. vm_compute. reflexivity.
Qed.

Lemma followRedirects_follows_chain_witness :
  followRedirects mock_get 4 (Some (js "/a")) mock_env =
    (Response (mkMsg (Some 200) None None),
     mkEnv tt (js "/home/u") true [js "/a"; js "/b"; js "/c"; js "/d"] [] [] []).
Proof.
  apply (followRedirects_follows_chain unit mock_get 3 (js "/a") mock_env
           (mkMsg (Some 200) None None) tt [js "/a"; js "/b"; js "/c"; js "/d"] 4).
  - eapply chain_hop; [reflexivity | reflexivity | reflexivity |].
    eapply chain_hop; [reflexivity | reflexivity | reflexivity |].
    eapply chain_hop; [reflexivity | reflexivity | reflexivity |].
    apply chain_end; reflexivity.
  - lia.
Defined.

Lemma download_without_content_length_is_rejected_witness :
  exists r,
    downloadFile mock_get 4 (js "/a") (js "/home/u/.nomic/gpt4all") mock_env =
      (Rejected r,
       mkEnv tt (js "/home/u") true [js "/a"; js "/b"; js "/c"; js "/d"]
             [js "file:///home/u/.nomic/"] [] []) /\
    [] = write_streams mock_env /\
    [] = piped mock_env /\
    (forall ev, on_writer_event (Rejected r) ev = Some (Failed r)) /\
    (status_is (mkMsg (Some 200) None None) 200 = true -> r = Message no_size).
Proof.
  apply (download_without_content_length_is_rejected unit mock_get 4 (js "/a")
           (js "/home/u/.nomic/gpt4all") mock_env
           (mkEnv tt (js "/home/u") true [js "/a"; js "/b"; js "/c"; js "/d"]
                  [js "file:///home/u/.nomic/"] [] [])
           (mkMsg (Some 200) None None)); reflexivity.
Defined.

Lemma unusable_content_length_is_like_none_witness :
  downloadFile mock_get 1 (js "/junk") (js "/home/u/.nomic/gpt4all") mock_env =
    (Rejected (Message no_size),
     mkEnv tt (js "/home/u") true [js "/junk"] [js "file:///home/u/.nomic/"] [] []).
Proof.
  apply (unusable_content_length_is_like_none unit mock_get 1 (js "/junk")
           (js "/home/u/.nomic/gpt4all") mock_env
           (mkEnv tt (js "/home/u") true [js "/junk"] [js "file:///home/u/.nomic/"] [] [])
           (mkMsg (Some 200) None (Some (js "abc"))) (js "abc"));
    try reflexivity.
  right. reflexivity.
Defined.
End ProvisionerFacts.

(* ================================================================== *)
(** ** The session, further *)

Module SessionLifecycle.
Import Session SessionFacts Scenarios.

(** *** The text a call resolves with *)

Lemma endsWith_snoc (s : jsstring) (c : char16) :
  endsWith (s ++ [c]) (js ">") = (c =? GT).
Proof.
  change (js ">") with [GT]. unfold endsWith. rewrite length_app. cbn [List.length].
  replace (List.length s + 1 - 1)%nat with (List.length s) by lia.
  replace (1 <=? List.length s + 1)%nat with true by (symmetry; apply Nat.leb_le; lia).
  rewrite skipn_app, skipn_all, Nat.sub_diag. cbn [skipn app andb].
  destruct (list_eq_dec N.eq_dec [c] [GT]) as [E|E].
  - inversion E. reflexivity.
  - symmetry. apply N.eqb_neq. intros ->. now apply E.
Qed.

(** X9. [terminateAndResolve] removes exactly one trailing ">": a text
    ending in ">" loses that character and no more, and a text ending
    in anything else, or the empty text, is left as it is. *)
Theorem cleaned_strips_one_marker (s : jsstring) (c : char16) :
  cleaned (s ++ js ">") = s /\
  cleaned (s ++ js ">>") = s ++ js ">" /\
  cleaned (s ++ [c]) = (if c =? GT then s else s ++ [c]) /\
  cleaned [] = [].
Proof.
  assert (H : forall t d, cleaned (t ++ [d]) = if d =? GT then t else t ++ [d]).
  { intros t d. unfold cleaned. rewrite endsWith_snoc. destruct (d =? GT); [|reflexivity].
    unfold slice_0_m1. rewrite length_app. cbn [List.length].
    replace (List.length t + 1 - 1)%nat with (List.length t + 0)%nat by lia.
    rewrite firstn_app_2. cbn. apply app_nil_r. }
  split; [apply (H s GT)|]. split; [|split; [apply H | reflexivity]].
  change (js ">>") with ([GT] ++ [GT]). rewrite app_assoc. apply (H (s ++ [GT]) GT).
Qed.

(** *** Chunks are tested one by one *)

(** X2. The completion pattern is tested on each chunk alone.  However
    many chunks arrive in quick succession, if none matches by itself
    the call stays pending with all of them in its buffer, whether or
    not the buffer as a whole holds the marker sequence. *)
Theorem split_marker_is_not_detected
    (b : nat) (w : World) (text : jsstring) (cs : list (N * jsstring)) :
  idle b w ->
  all_quiet cs = true ->
  let c := List.length (calls w) in
  let w' := run (snd (prompt text w)) (arrivals b cs) in
  outcome c w' = Some Pending /\ buffer c w' = Some (texts cs).
Proof.
  intros Hidle Hq c w'.
  destruct (prompt_idle b w text Hidle) as (_ & HL).
  destruct (run_arrivals c b cs [] None _ HL I Hq) as (dl & (Hc & _) & _).
  fold w' in Hc. cbn [app] in Hc. unfold outcome, buffer. now rewrite Hc.
Qed.

Lemma split_marker_is_not_detected_witness :
  test completion_pattern (texts [(10, marker_head); (10, marker_tail)]) = true /\
  outcome 0 (run (snd (prompt (js "hi") booted))
                 (arrivals 0 [(10, marker_head); (10, marker_tail)])) = Some Pending.
Proof.
  split; [reflexivity|].
  apply (split_marker_is_not_detected 0 booted (js "hi") [(10, marker_head); (10, marker_tail)]).
  - unfold idle. cbn. repeat split. eexists. repeat split.
  - reflexivity.
Defined.

(** *** After a call has completed *)

(** Nothing is listening on [b] and no timer is armed. *)
Lemma quiet_step (b : nat) (w : World) (e : event) :
  (exists pr, nth_error (procs w) b = Some pr /\
              data_listeners pr = [] /\ error_listeners pr = []) ->
  timers w = [] ->
  on_process b e = true ->
  calls (step w e) = calls w /\ procs (step w e) = procs w /\ timers (step w e) = [].
Proof.
  intros (pr & Hpr & Hd & He) Ht Hon. destruct e as [p t|p err|ms]; cbn in Hon |- *.
  - apply Nat.eqb_eq in Hon. subst p. unfold emit_data. rewrite Hpr, Hd. cbn. auto.
  - apply Nat.eqb_eq in Hon. subst p. unfold emit_error. rewrite Hpr, He. cbn. auto.
  - unfold elapse. rewrite Ht. cbn. auto.
Qed.

Lemma quiet_run (b : nat) : forall es w,
  (exists pr, nth_error (procs w) b = Some pr /\
              data_listeners pr = [] /\ error_listeners pr = []) ->
  timers w = [] ->
  forallb (on_process b) es = true ->
  calls (run w es) = calls w.
Proof.
  induction es as [|e es IH]; intros w Hp Ht Hon; [reflexivity|].
  cbn in Hon. apply andb_prop in Hon as [He Hes].
  destruct (quiet_step b w e Hp Ht He) as (Hc & Hpr & Ht').
  cbn [run fold_left]. fold (run (step w e) es). rewrite IH; auto.
  now rewrite Hpr.
Qed.

(** X4. Once a matching chunk has resolved the call, the call is done
    with the stream: whatever the subprocess emits afterwards, data or
    errors, and however much time passes, the resolved value and the
    buffer stay as they were. *)
Theorem late_output_is_dropped
    (b : nat) (w : World) (text : jsstring)
    (cs : list (N * jsstring)) (gap : N) (m : jsstring) (es : list event) :
  idle b w ->
  all_quiet cs = true ->
  gap < IDLE_MS ->
  test completion_pattern m = true ->
  forallb (on_process b) es = true ->
  let c := List.length (calls w) in
  let w' := run (snd (prompt text w)) (arrivals b (cs ++ [(gap, m)])) in
  outcome c (run w' es) = Some (Resolved (cleaned (texts cs))) /\
  buffer c (run w' es) = Some (texts cs ++ m).
Proof.
  intros Hidle Hq Hgap Hm Hes c w'.
  destruct (prompt_idle b w text Hidle) as (_ & HL).
  destruct (run_arrivals c b cs [] None _ HL I Hq) as (dl & HL1 & Hd & _).
  assert (Hw : w' = emit_data b m (elapse gap (run (snd (prompt text w)) (arrivals b cs)))).
  { subst w'. rewrite arrivals_app, run_app. reflexivity. }
  set (w1 := run (snd (prompt text w)) (arrivals b cs)) in *.
  destruct (elapse_short c b _ dl w1 gap HL1) as (HL2 & _).
  { destruct dl as [[id d]|]; [|exact I]. subst d. unfold IDLE_MS in *. lia. }
  destruct (chunk_match c b _ dl _ m HL2 Hm) as (Ho & Hb & Ht & _ & Hp).
  rewrite <- Hw in Ho, Hb, Ht, Hp. cbn [app] in Ho, Hb.
  unfold outcome, buffer in *. now rewrite (quiet_run b es w' Hp Ht Hes).
Qed.

Lemma late_output_is_dropped_witness :
  outcome 0 (run (run (snd (prompt (js "hi") booted))
                      (arrivals 0 ([(10, js "yes")] ++ [(20, marker_chunk)])))
                 [Data 0 (js "late"); Elapse 9000; Error 0 (js "EPIPE")])
  = Some (Resolved (js "yes")).
Proof.
  apply (late_output_is_dropped 0 booted (js "hi") [(10, js "yes")] 20 marker_chunk
           [Data 0 (js "late"); Elapse 9000; Error 0 (js "EPIPE")]).
  - unfold idle. cbn. repeat split. eexists. repeat split.
  - reflexivity.
  - reflexivity.
  - reflexivity.
  - reflexivity.
Defined.

(** *** What the events leave alone *)

(** A chunk handled by call [c] leaves the other calls as they are. *)
Lemma calls_onStdoutData_other c c' t w :
  c' <> c -> nth_error (calls (onStdoutData c t w)) c' = nth_error (calls w) c'.
Proof.
  intros Hne. apply Nat.eqb_neq in Hne. unfold onStdoutData.
  destruct (nth_error (calls w) c) as [pc|] eqn:E; [|reflexivity].
  set (w1 := match timeoutId pc with Some id => clearTimeout id w | None => w end).
  assert (Hc1 : calls w1 = calls w) by (subst w1; now destruct (timeoutId pc)).
  destruct (test completion_pattern t).
  - unfold terminateAndResolve. rewrite Hc1, E. cbn.
    now rewrite update_update, nth_error_update_any, Hne, Hc1.
  - cbn. now rewrite update_update, nth_error_update_any, Hne, Hc1.
Qed.

(** While call [c] is the one listening on [b], the events on [b] leave
    every other call as it is. *)
Lemma listening_step_other c b acc dl w c' e :
  listening c b acc dl w ->
  c' <> c ->
  match e with Data p _ => p = b | Error _ _ => False | Elapse _ => True end ->
  nth_error (calls (step w e)) c' = nth_error (calls w) c'.
Proof.
  intros (Hc & (pr & Hpr & Hd & He) & Ht) Hne Hon. destruct e as [p t|p err|ms]; cbn.
  - subst p. unfold emit_data. rewrite Hpr, Hd. cbn. now apply calls_onStdoutData_other.
  - destruct Hon.
  - unfold elapse. rewrite Ht. destruct dl as [[id d]|]; cbn; [|reflexivity].
    destruct (d <=? now w + ms); cbn; [|reflexivity].
    unfold timer_callback. cbn. rewrite Hc. unfold terminateAndResolve. cbn. rewrite Hc. cbn.
    apply Nat.eqb_neq in Hne. now rewrite nth_error_update_any, Hne.
Qed.

Lemma run_arrivals_other c b c' : forall cs acc dl w,
  listening c b acc dl w ->
  match dl with Some (_, d) => d = now w + IDLE_MS | None => True end ->
  all_quiet cs = true ->
  c' <> c ->
  nth_error (calls (run w (arrivals b cs))) c' = nth_error (calls w) c'.
Proof.
  induction cs as [|[gap t] cs IH]; intros acc dl w HL Hd Hq Hne; [reflexivity|].
  cbn in Hq. apply andb_prop in Hq as [Hq1 Hq].
  apply andb_prop in Hq1 as [Hgap Hno].
  apply N.ltb_lt in Hgap. apply negb_true_iff in Hno.
  destruct (elapse_short c b acc dl w gap HL) as (HL1 & Hn1 & _).
  { destruct dl as [[id d]|]; [|exact I]. subst d. unfold IDLE_MS in *. lia. }
  destruct (chunk_no_match c b acc dl _ t HL1 Hno) as (HL2 & Hn2).
  cbn [arrivals flat_map app fst snd run fold_left].
  change (fold_left step (flat_map (fun gc => [Elapse (fst gc); Data b (snd gc)]) cs)
            (step (step w (Elapse gap)) (Data b t)))
    with (run (emit_data b t (elapse gap w)) (arrivals b cs)).
  rewrite (IH _ _ _ HL2); [|now rewrite Hn2 | exact Hq | exact Hne].
  pose proof (listening_step_other c b acc dl (elapse gap w) c' (Data b t) HL1 Hne eq_refl) as F1.
  pose proof (listening_step_other c b acc dl w c' (Elapse gap) HL Hne I) as F2.
  cbn [step] in F1, F2. now rewrite F1, F2.
Qed.

(** One whole exchange on an idle session: the prompt, chunks that do
    not match, the chunk that does.  Afterwards the session is idle
    again, the call is resolved, and the earlier calls are as they
    were. *)
Lemma exchange b w text cs gap m :
  idle b w ->
  all_quiet cs = true ->
  gap < IDLE_MS ->
  test completion_pattern m = true ->
  let c := List.length (calls w) in
  let w' := run (snd (prompt text w)) (arrivals b (cs ++ [(gap, m)])) in
  idle b w' /\
  outcome c w' = Some (Resolved (cleaned (texts cs))) /\
  buffer c w' = Some (texts cs ++ m) /\
  (forall c', (c' < c)%nat -> nth_error (calls w') c' = nth_error (calls w) c').
Proof.
  intros Hidle Hq Hgap Hm c w'.
  destruct (prompt_idle b w text Hidle) as (_ & HL).
  pose proof Hidle as (Hb & _ & _).
  destruct (run_arrivals c b cs [] None _ HL I Hq) as (dl & HL1 & Hd & _).
  assert (Hw : w' = emit_data b m (elapse gap (run (snd (prompt text w)) (arrivals b cs)))).
  { subst w'. rewrite arrivals_app, run_app. reflexivity. }
  set (w0 := snd (prompt text w)) in *.
  set (w1 := run w0 (arrivals b cs)) in *.
  assert (Hdue : match dl with Some (_, d) => now w1 + gap < d | None => True end).
  { destruct dl as [[id d]|]; [|exact I]. subst d. unfold IDLE_MS in *. lia. }
  destruct (elapse_short c b _ dl w1 gap HL1 Hdue) as (HL2 & _).
  destruct (chunk_match c b _ dl _ m HL2 Hm) as (Ho & Hbuf & Ht & _ & Hp).
  rewrite <- Hw in Ho, Hbuf, Ht, Hp. cbn [app] in Ho, Hbuf.
  split; [|split; [exact Ho | split; [exact Hbuf|]]].
  - unfold idle. split; [|split; [exact Hp | exact Ht]].
    rewrite Hw. change (emit_data b m (elapse gap w1)) with (run w1 [Elapse gap; Data b m]).
    subst w1 w0. now rewrite !bot_run, bot_prompt.
  - intros c' Hlt. assert (Hne : c' <> c) by lia.
    rewrite Hw.
    pose proof (listening_step_other c b _ dl (elapse gap w1) c' (Data b m) HL2 Hne eq_refl) as F1.
    pose proof (listening_step_other c b _ dl w1 c' (Elapse gap) HL1 Hne I) as F2.
    cbn [step] in F1, F2. rewrite F1, F2.
    subst w1. rewrite (run_arrivals_other c b c' cs [] None w0 HL I Hq Hne).
    subst w0. unfold prompt. rewrite Hb. cbn. apply nth_error_app1. exact Hlt.
Qed.

(** *** Prompts one after the other *)

(** X5. Used one at a time, prompts do not mix.  When a second prompt
    is issued after the first has been resolved by a matching chunk, it
    gets a handle of its own and resolves with the text of the chunks
    that arrived after it was issued; the first call keeps its value and
    its buffer. *)
Theorem sequential_prompts_do_not_mix
    (b : nat) (w : World) (text1 text2 : jsstring)
    (cs1 cs2 : list (N * jsstring)) (gap1 gap2 : N) (m1 m2 : jsstring) :
  idle b w ->
  all_quiet cs1 = true -> gap1 < IDLE_MS -> test completion_pattern m1 = true ->
  all_quiet cs2 = true -> gap2 < IDLE_MS -> test completion_pattern m2 = true ->
  let c1 := List.length (calls w) in
  let w1 := run (snd (prompt text1 w)) (arrivals b (cs1 ++ [(gap1, m1)])) in
  let c2 := List.length (calls w1) in
  let w2 := run (snd (prompt text2 w1)) (arrivals b (cs2 ++ [(gap2, m2)])) in
  fst (prompt text2 w1) = Return c2 /\
  c1 <> c2 /\
  outcome c1 w2 = Some (Resolved (cleaned (texts cs1))) /\
  buffer c1 w2 = Some (texts cs1 ++ m1) /\
  outcome c2 w2 = Some (Resolved (cleaned (texts cs2))) /\
  buffer c2 w2 = Some (texts cs2 ++ m2).
Proof.
  intros Hidle Hq1 Hg1 Hm1 Hq2 Hg2 Hm2 c1 w1 c2 w2.
  destruct (exchange b w text1 cs1 gap1 m1 Hidle Hq1 Hg1 Hm1) as (Hidle1 & Ho1 & Hb1 & _).
  fold c1 w1 in Hidle1, Ho1, Hb1.
  destruct (exchange b w1 text2 cs2 gap2 m2 Hidle1 Hq2 Hg2 Hm2) as (_ & Ho2 & Hb2 & Hfr).
  fold c2 w2 in Ho2, Hb2, Hfr.
  assert (Hlt : (c1 < c2)%nat).
  { subst c2. apply nth_error_Some. unfold outcome in Ho1.
    destruct (nth_error (calls w1) c1); discriminate. }
  destruct (prompt_idle b w1 text2 Hidle1) as (Hp & _).
  split; [now rewrite Hp|]. split; [lia|].
  unfold outcome, buffer in *. rewrite (Hfr c1 Hlt). auto.
Qed.

Lemma sequential_prompts_do_not_mix_witness :
  outcome 0 (run (snd (prompt (js "two")
                        (run (snd (prompt (js "one") booted))
                             (arrivals 0 ([(5, js "first")] ++ [(5, marker_chunk)])))))
                 (arrivals 0 ([(5, js "second")] ++ [(5, marker_chunk)])))
  = Some (Resolved (js "first")) /\
  outcome 1 (run (snd (prompt (js "two")
                        (run (snd (prompt (js "one") booted))
                             (arrivals 0 ([(5, js "first")] ++ [(5, marker_chunk)])))))
                 (arrivals 0 ([(5, js "second")] ++ [(5, marker_chunk)])))
  = Some (Resolved (js "second")).
Proof.
  pose proof (sequential_prompts_do_not_mix 0 booted (js "one") (js "two")
                [(5, js "first")] [(5, js "second")] 5 5 marker_chunk marker_chunk) as H.
  destruct H as (_ & _ & H1 & _ & H2 & _); try reflexivity.
  - unfold idle. cbn. repeat split. eexists. repeat split.
  - split; [exact H1 | exact H2].
Defined.

(** *** An error on the stream *)

(** X3. An error event on the subprocess output while a prompt is
    pending rejects that prompt with the error and removes its two
    listeners; the session stays open and the error is not left
    uncaught.  The idle timer is not cleared, but when it fires later
    the promise, already rejected, keeps its rejection. *)
Theorem stream_error_rejects_the_call
    (b : nat) (w : World) (text : jsstring)
    (cs : list (N * jsstring)) (err : jsstring) (ms : N) :
  idle b w ->
  all_quiet cs = true ->
  let c := List.length (calls w) in
  let w1 := run (snd (prompt text w)) (arrivals b cs) in
  let w2 := step w1 (Error b err) in
  outcome c w2 = Some (Rejected err) /\
  bot w2 = Some b /\
  uncaught w2 = uncaught w1 /\
  timers w2 = timers w1 /\
  (exists pr, nth_error (procs w2) b = Some pr /\
              data_listeners pr = [] /\ error_listeners pr = []) /\
  outcome c (step w2 (Elapse ms)) = Some (Rejected err).
Proof.
  intros Hidle Hq c w1 w2.
  destruct (prompt_idle b w text Hidle) as (_ & HL).
  pose proof Hidle as (Hb & _ & _).
  destruct (run_arrivals c b cs [] None _ HL I Hq) as (dl & HL1 & Hd & _).
  fold w1 in HL1. cbn [app] in HL1.
  destruct HL1 as (Hc & (pr & Hpr & Hdl & Hel) & Ht).
  assert (E : w2 = onStdoutError c err w1).
  { subst w2. cbn. unfold emit_error. rewrite Hpr, Hel. reflexivity. }
  assert (Hbot : bot w2 = Some b) by (subst w2 w1; now rewrite bot_step, bot_run, bot_prompt).
  clearbody w2 w1.
  assert (Hc2 : nth_error (calls w2) c
                = Some (mkCall b (texts cs) (option_map fst dl) (Rejected err))).
  { rewrite E. unfold onStdoutError. rewrite Hc. cbn.
    now rewrite (nth_error_update _ _ _ _ Hc). }
  assert (Hp2 : nth_error (procs w2) b = Some (mkProc (argv pr) (stdin pr) (kills pr) [] [])).
  { rewrite E. unfold onStdoutError. rewrite Hc. cbn.
    rewrite update_update, (nth_error_update _ _ _ _ Hpr). cbn.
    rewrite Hdl, Hel. cbn. now rewrite !Nat.eqb_refl. }
  assert (Ht2 : timers w2 = timers w1).
  { rewrite E. unfold onStdoutError. now rewrite Hc. }
  split; [unfold outcome; now rewrite Hc2|].
  split; [exact Hbot|].
  split; [rewrite E; unfold onStdoutError; now rewrite Hc|].
  split; [exact Ht2|]. split; [eauto|].
  cbn [step]. unfold elapse. rewrite Ht2, Ht.
  destruct dl as [[id d]|]; cbn; [|unfold outcome; cbn; now rewrite Hc2].
  destruct (d <=? now w2 + ms); cbn; [|unfold outcome; cbn; now rewrite Hc2].
  unfold timer_callback. cbn. rewrite Hc2. unfold terminateAndResolve. cbn. rewrite Hc2.
  unfold outcome. cbn. now rewrite (nth_error_update _ _ _ _ Hc2).
Qed.

Lemma stream_error_rejects_the_call_witness :
  outcome 0 (step (step (run (snd (prompt (js "hi") booted)) (arrivals 0 [(5, js "par")]))
                        (Error 0 (js "EIO")))
                  (Elapse 4000))
  = Some (Rejected (js "EIO")).
Proof.
  apply (stream_error_rejects_the_call 0 booted (js "hi") [(5, js "par")] (js "EIO") 4000).
  - unfold idle. cbn. repeat split. eexists. repeat split.
  - reflexivity.
Defined.

(** *** [close] while a prompt is pending *)

Lemma close_listening c b acc dl w :
  listening c b acc dl w -> listening c b acc dl (close w).
Proof.
  intros (Hc & (pr & Hpr & Hd & He) & Ht). unfold close.
  destruct (bot w) as [b'|]; [|repeat split; eauto].
  unfold listening. cbn. split; [exact Hc|]. split; [|exact Ht].
  rewrite nth_error_update_any, Hpr. destruct (Nat.eqb b b'); cbn; eauto.
Qed.

Lemma kills_update_eq : forall ps b pr,
  nth_error ps b = Some pr ->
  fold_right (fun pr n => (kills pr + n)%nat) 0%nat
    (update b (fun pr => mkProc (argv pr) (stdin pr) (S (kills pr))
                                (data_listeners pr) (error_listeners pr)) ps)
  = S (fold_right (fun pr n => (kills pr + n)%nat) 0%nat ps).
Proof.
  induction ps as [|p ps IH]; intros [|b] pr Hpr; cbn in *; try discriminate.
  - reflexivity.
  - rewrite (IH b pr Hpr). lia.
Qed.

(** X6. [close] does not settle a pending prompt.  It clears the handle
    and kills the process, but the call stays pending with its
    listeners on the dead process's stream.  If chunks had arrived, the
    idle timer still fires 4000 ms after the last one and resolves the
    call with what was received; if none had, no timer is armed and the
    passing of time never settles the call. *)
Theorem close_leaves_prompt_pending
    (b : nat) (w : World) (text : jsstring) (cs : list (N * jsstring)) (ms : N) :
  idle b w ->
  all_quiet cs = true ->
  let c := List.length (calls w) in
  let w1 := run (snd (prompt text w)) (arrivals b cs) in
  let w2 := close w1 in
  bot w2 = None /\
  total_kills w2 = S (total_kills w1) /\
  outcome c w2 = Some Pending /\
  (cs = [] -> outcome c (step w2 (Elapse ms)) = Some Pending) /\
  (cs <> [] -> IDLE_MS <= ms ->
   outcome c (step w2 (Elapse ms)) = Some (Resolved (cleaned (texts cs)))).
Proof.
  intros Hidle Hq c w1 w2.
  destruct (prompt_idle b w text Hidle) as (_ & HL).
  pose proof Hidle as (Hb & _ & _).
  destruct (run_arrivals c b cs [] None _ HL I Hq) as (dl & HL1 & Hd & Hne).
  fold w1 in HL1, Hd. cbn [app] in HL1.
  assert (Hb1 : bot w1 = Some b) by (subst w1; now rewrite bot_run, bot_prompt).
  pose proof (close_listening c b _ dl w1 HL1) as HL2. fold w2 in HL2.
  assert (Hn : now w2 = now w1) by (subst w2; unfold close; now rewrite Hb1).
  split; [subst w2; unfold close; now rewrite Hb1|]. split.
  - destruct HL1 as (_ & (pr & Hpr & _) & _). subst w2. unfold close. rewrite Hb1.
    unfold total_kills. cbn. apply (kills_update_eq _ _ _ Hpr).
  - split; [destruct HL2 as (Hc & _); unfold outcome; now rewrite Hc|]. split.
    + intros ->. cbn in w1. subst w2 w1.
      pose proof (close_listening c b [] None _ HL) as HL3.
      destruct (elapse_short c b [] None _ ms HL3 I) as ((Hc & _) & _).
      cbn [step]. unfold outcome. now rewrite Hc.
    + intros Hcs Hms. destruct dl as [[id d]|]; [|now elim (Hne Hcs)].
      subst d. cbn [step].
      destruct (elapse_idle c b _ id _ w2 ms HL2) as (Ho & _).
      { rewrite Hn. unfold IDLE_MS in *. lia. }
      exact Ho.
Qed.

Lemma close_leaves_prompt_pending_witness :
  outcome 0 (close (run (snd (prompt (js "hi") booted)) (arrivals 0 [(5, js "par>")])))
  = Some Pending.
Proof.
  destruct (close_leaves_prompt_pending 0 booted (js "hi") [(5, js "par>")] 0)
    as (_ & _ & H & _).
  - unfold idle. cbn. repeat split. eexists. repeat split.
  - reflexivity.
  - exact H.
Defined.

(** *** [open] *)

Lemma config_args_length : forall cfg flags,
  config_args cfg = Return flags ->
  List.length flags = (2 * List.length cfg)%nat.
Proof.
  induction cfg as [|[k v] cfg IH]; intros flags H; cbn in H.
  - inversion H. reflexivity.
  - destruct (toString v) as [text|err]; [|discriminate].
    destruct (config_args cfg) as [args|err]; [|discriminate].
    inversion H. cbn. rewrite (IH args eq_refl). lia.
Qed.

(** The loop fails exactly when some value is undefined or null. *)
Lemma config_args_throws : forall cfg,
  (exists err, config_args cfg = Throw err) <->
  (exists k v, In (k, v) cfg /\ (v = Undefined \/ v = Null)).
Proof.
  induction cfg as [|[k v] cfg IH]; cbn.
  - split; [intros [err H]; discriminate | intros (k & v & [] & _)].
  - split.
    + intros [err H]. destruct v as [| |text]; cbn in H.
      * exists k, Undefined. auto.
      * exists k, Null. auto.
      * destruct (config_args cfg) as [args|e] eqn:E; [discriminate|].
        destruct (proj1 IH (ex_intro _ e eq_refl)) as (k' & v' & Hin & Hv).
        exists k', v'. auto.
    + intros (k' & v' & [Heq | Hin] & Hv).
      * inversion Heq; subst. destruct Hv as [-> | ->]; cbn; eauto.
      * destruct v as [| |text]; cbn; eauto.
        destruct (proj2 IH (ex_intro _ k' (ex_intro _ v' (conj Hin Hv)))) as [err E].
        rewrite E. eauto.
Qed.

(** When every value stringifies, the arguments are the pairs of the
    entries, in order. *)
Lemma config_args_values (l : list (jsstring * jsstring)) :
  config_args (map (fun kt => (fst kt, Value (snd kt))) l) =
  Return (flat_map (fun kt => [js "--" ++ fst kt; snd kt]) l).
Proof.
  induction l as [|[k t] l IH]; cbn; [reflexivity|]. now rewrite IH.
Qed.

Lemma open_process (w : World) (flags : list jsstring) :
  config_args (decoderConfig w) = Return flags ->
  fst (open w) = Return (List.length (openings w)) /\
  nth_error (procs (snd (open w))) (List.length (procs w)) =
  Some (mkProc ([executablePath w; js "--model"; modelPath w] ++ flags)
               [] 0 [StartupListener (List.length (openings w))] []).
Proof.
  intros Hcfg. destruct (close_keeps w) as (Hlen & He & Hm & Hd & _ & Ho).
  unfold open. rewrite Hd, Hcfg. cbn. rewrite Hlen, He, Hm, Ho. split; [reflexivity|].
  rewrite <- Hlen at 1. rewrite update_snoc, <- Hlen. apply nth_error_snoc.
Qed.

(** X7. [open] first closes: the process the handle pointed to is
    killed once more, and earlier calls are left as they are.  Then, if
    every value of the configuration stringifies, it starts a new
    process and points [this.bot] at it: the command line is the
    executable, [--model], the model path and two arguments per entry;
    nothing has been written to it and the startup listener is its only
    listener.  If a value is undefined or null, which is exactly when
    the loop over the entries throws, the promise of [open] is rejected
    with that error, nothing is spawned and the session is left
    closed. *)
Theorem open_spawns_fresh_process (w : World) :
  let p := List.length (procs w) in
  let w' := snd (open w) in
  (forall b pr, bot w = Some b -> nth_error (procs w) b = Some pr ->
     exists pr', nth_error (procs w') b = Some pr' /\ kills pr' = S (kills pr)) /\
  calls w' = calls w /\
  ((exists err, config_args (decoderConfig w) = Throw err) <->
   (exists k v, In (k, v) (decoderConfig w) /\ (v = Undefined \/ v = Null))) /\
  match config_args (decoderConfig w) with
  | Return flags =>
      fst (open w) = Return (List.length (openings w)) /\
      bot w' = Some p /\
      List.length flags = (2 * List.length (decoderConfig w))%nat /\
      (exists pr, nth_error (procs w') p = Some pr /\
         argv pr = [executablePath w; js "--model"; modelPath w] ++ flags /\
         stdin pr = [] /\ kills pr = 0%nat /\
         data_listeners pr = [StartupListener (List.length (openings w))] /\
         error_listeners pr = []) /\
      nth_error (openings w') (List.length (openings w)) = Some false
  | Throw err =>
      fst (open w) = Throw err /\
      w' = close w /\
      bot w' = None /\
      List.length (procs w') = List.length (procs w) /\
      openings w' = openings w
  end.
Proof.
  intros p w'. destruct (close_keeps w) as (Hlen & He & Hm & Hd & Hc & Ho).
  assert (Hkill : forall b pr, bot w = Some b -> nth_error (procs w) b = Some pr ->
            exists pr', nth_error (procs (close w)) b = Some pr' /\ kills pr' = S (kills pr)).
  { intros b pr Hb Hpr. unfold close. rewrite Hb. cbn.
    rewrite (nth_error_update _ _ _ _ Hpr). eauto. }
  split; [|split; [|split; [apply config_args_throws|]]].
  - intros b pr Hb Hpr. destruct (Hkill b pr Hb Hpr) as (pr' & Hpr' & Hk).
    subst w'. unfold open. rewrite Hd.
    destruct (config_args (decoderConfig w)) as [flags|err]; cbn; [|eauto].
    assert (Hlt : (b < List.length (procs (close w)))%nat).
    { apply nth_error_Some. now rewrite Hpr'. }
    rewrite nth_error_update_any.
    replace (Nat.eqb b (List.length (procs (close w)))) with false
      by (symmetry; apply Nat.eqb_neq; lia).
    rewrite nth_error_app1 by exact Hlt. eauto.
  - subst w'. unfold open. rewrite Hd.
    now destruct (config_args (decoderConfig w)).
  - destruct (config_args (decoderConfig w)) as [flags|err] eqn:Hcfg.
    + destruct (open_process w flags Hcfg) as (Hfst & Hp).
      split; [exact Hfst|].
      split; [subst w' p; unfold open; rewrite Hd, Hcfg; cbn; now rewrite Hlen|].
      split; [now apply config_args_length|].
      split; [eexists; split; [exact Hp|]; cbn; repeat split|].
      subst w'. unfold open. rewrite Hd, Hcfg. cbn. rewrite Ho. apply nth_error_snoc.
    + assert (E : open w = (Throw err, close w)).
      { unfold open. now rewrite Hd, Hcfg. }
      subst w'. rewrite E. cbn [fst snd]. repeat split; auto.
      unfold close. destruct (bot w) eqn:Hb; cbn; auto.
Qed.

Lemma open_spawns_fresh_process_witness :
  fst (open misconfigured) =
    Throw (js "Cannot read properties of undefined (reading 'toString')") /\
  bot (snd (open misconfigured)) = None /\
  List.length (procs (snd (open misconfigured))) = 1%nat /\
  option_map kills (nth_error (procs (snd (open misconfigured))) 0) = Some 1%nat.
Proof.
  destruct (open_spawns_fresh_process misconfigured) as (Hk & _ & _ & H).
  cbn in H. destruct H as (H1 & _ & H3 & H4 & _).
  destruct (Hk 0%nat (mkProc [js "/home/u/.nomic/gpt4all"; js "--model";
                              js "/home/u/.nomic/gpt4all-lora-quantized.bin"] [] 0 [] [])
               eq_refl eq_refl) as (pr' & Hp & Hkills).
  split; [exact H1|]. split; [exact H3|]. split; [exact H4|].
  rewrite Hp. cbn. now rewrite Hkills.
Defined.

(** X8. [open] waits for the readiness marker and for nothing else.
    Once the process is spawned, chunks without ">" are dropped and
    change nothing: the promise [open] awaits stays unresolved, however
    many arrive.  The first chunk holding ">" resolves it and removes
    the startup listener. *)
Theorem open_waits_for_marker
    (w : World) (flags : list jsstring) (ts : list jsstring) (t : jsstring) :
  config_args (decoderConfig w) = Return flags ->
  forallb no_marker ts = true ->
  includes_char t GT = true ->
  let p := List.length (procs w) in
  let o := List.length (openings w) in
  let w1 := snd (open w) in
  let w2 := run w1 (map (Data p) ts) in
  fst (open w) = Return o /\
  w2 = w1 /\
  nth_error (openings w2) o = Some false /\
  nth_error (openings (step w2 (Data p t))) o = Some true /\
  (exists pr, nth_error (procs (step w2 (Data p t))) p = Some pr /\ data_listeners pr = []).
Proof.
  intros Hcfg Hts Ht p o w1 w2.
  destruct (open_process w flags Hcfg) as (Hfst & Hp). fold w1 p o in Hp.
  destruct (close_keeps w) as (Hlen & _ & _ & Hd & _ & Ho).
  assert (Hop : openings w1 = openings w ++ [false])
    by (subst w1; unfold open; rewrite Hd, Hcfg; cbn; now rewrite Ho).
  assert (Hw2 : w2 = w1).
  { subst w2. clear Ht. induction ts as [|t' ts IH]; [reflexivity|].
    cbn in Hts. apply andb_prop in Hts as [Ht' Hts].
    cbn [map run fold_left step]. unfold emit_data at 1. rewrite Hp.
    cbn [data_listeners fold_left call_listener]. unfold startupListener.
    unfold no_marker in Ht'. rewrite Ht'. apply (IH Hts). }
  split; [exact Hfst|]. split; [exact Hw2|]. rewrite Hw2.
  assert (Ho' : o = List.length (openings w)) by reflexivity.
  clearbody w1 w2 o p.
  split; [rewrite Hop, Ho'; apply nth_error_snoc|].
  cbn [step]. unfold emit_data. rewrite Hp.
  cbn [data_listeners fold_left call_listener]. unfold startupListener. rewrite Ht. cbn.
  split.
  - rewrite Hop, Ho', update_snoc. apply nth_error_snoc.
  - rewrite (nth_error_update _ _ _ _ Hp). eexists. split; [reflexivity|].
    cbn. now rewrite Nat.eqb_refl.
Qed.

Lemma open_waits_for_marker_witness :
  nth_error (openings (step (run (snd (open fresh))
                                 (map (Data 0) [js "loading model"; js "please wait"]))
                            (Data 0 (js "> "))))
            0 = Some true.
Proof.
  apply (open_waits_for_marker fresh [] [js "loading model"; js "please wait"] (js "> "));
    reflexivity.
Defined.

End SessionLifecycle.

(* ================================================================== *)
(** ** The provisioner, further *)

Module DownloadFacts.
Import Provisioner Artifacts ProvisionerFacts.

Lemma jsstring_eqb_eq (a b : jsstring) : jsstring_eqb a b = true <-> a = b.
Proof. unfold jsstring_eqb. destruct (list_eq_dec N.eq_dec a b); split; congruence. Qed.

Lemma jsstring_eqb_neq (a b : jsstring) : jsstring_eqb a b = false <-> a <> b.
Proof. unfold jsstring_eqb. destruct (list_eq_dec N.eq_dec a b); split; congruence. Qed.

(** *** The constructor and [init] *)

(** X10. The constructor accepts one model name only.  For
    "gpt4all-lora-quantized" it returns an object whose
    [downloadPromises] is null and which has started the two downloads
    if [forceDownload] is set and none otherwise; for any other name it
    throws, and the message names the model. *)
Theorem constructor_validates_model (m : jsstring) (force exe mdl : bool) :
  (m = js "gpt4all-lora-quantized" ->
   new_GPT4All m force exe mdl =
     Return (mkObj m None exe mdl (if force then [TheExecutable; TheModel] else []))) /\
  (m <> js "gpt4all-lora-quantized" ->
   exists rest, new_GPT4All m force exe mdl = Throw (js "Model " ++ m ++ rest)).
Proof.
  split.
  - intros ->. unfold new_GPT4All. cbn [availableModels existsb].
    replace (jsstring_eqb (js "gpt4all-lora-quantized") (js "gpt4all-lora-quantized"))
      with true by (symmetry; now apply jsstring_eqb_eq).
    cbn [orb negb]. destruct force; [|reflexivity].
    unfold init. cbn. reflexivity.
  - intros Hne. unfold new_GPT4All. cbn [availableModels existsb].
    apply jsstring_eqb_neq in Hne. rewrite Hne. cbn [orb negb]. eexists. reflexivity.
Qed.

(** X11. [init] starts a download for each artifact that is missing from
    the disk, for both when forced, the executable first; the promises
    it returns are those of the downloads it has just started; and it
    leaves [downloadPromises] null. *)
Theorem init_starts_what_is_missing (force : bool) (g : GPT4All) :
  downloadPromises g = None ->
  let needed :=
    (if force || negb (executable_on_disk g) then [TheExecutable] else []) ++
    (if force || negb (model_on_disk g) then [TheModel] else []) in
  downloads (snd (init force g)) = downloads g ++ needed /\
  fst (init force g) = seq (List.length (downloads g)) (List.length needed) /\
  downloadPromises (snd (init force g)) = None /\
  executable_on_disk (snd (init force g)) = executable_on_disk g /\
  model_on_disk (snd (init force g)) = model_on_disk g.
Proof.
  intros H. unfold init. rewrite H.
  destruct (force || negb (executable_on_disk g)); cbn;
    destruct (force || negb (model_on_disk g)); cbn;
    rewrite ?length_app, ?Nat.add_1_r, <- ?app_assoc, ?app_nil_r; cbn; auto.
Qed.

Lemma init_starts_what_is_missing_witness :
  init false (mkObj (js "gpt4all-lora-quantized") None true true []) =
  ([], mkObj (js "gpt4all-lora-quantized") None true true []) /\
  fst (init false (mkObj (js "gpt4all-lora-quantized") None true false [])) = [0%nat].
Proof.
  split; [reflexivity|].
  apply (init_starts_what_is_missing false
           (mkObj (js "gpt4all-lora-quantized") None true false [])).
  reflexivity.
Defined.

(** X12. Calls of [init(true)] never share work: after [n] calls in a
    row on an object whose [downloadPromises] is null, [n] downloads of
    the executable and [n] downloads of the model have been started
    beyond those there were, and the field is still null. *)
Theorem forced_init_never_memoizes (n : nat) (g : GPT4All) :
  downloadPromises g = None ->
  let g' := Nat.iter n (fun x => snd (init true x)) g in
  count_downloads TheExecutable g' = (count_downloads TheExecutable g + n)%nat /\
  count_downloads TheModel g' = (count_downloads TheModel g + n)%nat /\
  List.length (downloads g') = (List.length (downloads g) + 2 * n)%nat /\
  downloadPromises g' = None.
Proof.
  intros H. cbv zeta. induction n as [|n IH].
  - cbn. repeat split; auto; lia.
  - destruct IH as (He & Hm & Hl & Hn). rewrite Nat.iter_succ.
    set (x := Nat.iter n (fun x => snd (init true x)) g) in *.
    destruct (init_starts_what_is_missing true x Hn) as (Hd & _ & Hn' & _).
    cbn [orb app] in Hd.
    unfold count_downloads in *. rewrite Hd, !filter_app, !length_app. cbn.
    repeat split; auto; lia.
Qed.

Lemma forced_init_never_memoizes_witness :
  List.length (downloads (Nat.iter 3 (fun x => snd (init true x))
                             (mkObj (js "gpt4all-lora-quantized") None true true [])))
  = 6%nat.
Proof.
  destruct (forced_init_never_memoizes 3
              (mkObj (js "gpt4all-lora-quantized") None true true []))
    as (_ & _ & H & _); [reflexivity | exact H].
Defined.

(** *** [getModelUrl] *)

Lemma trim_start_spaces : forall ws s c,
  forallb class_s ws = true ->
  hd_error s = Some c -> class_s c = false ->
  trim_start (ws ++ s) = s.
Proof.
  unfold trim_start. induction ws as [|x ws IH]; intros s c Hws Hs Hc; cbn.
  - destruct s as [|y s]; [discriminate|]. cbn in Hs. inversion Hs; subst. cbn. now rewrite Hc.
  - cbn in Hws. apply andb_prop in Hws as [Hx Hws]. rewrite Hx.
    specialize (IH s c Hws Hs Hc). destruct (span class_s (ws ++ s)). exact IH.
Qed.

(** [trim] removes the white space around a text that neither begins
    nor ends with white space. *)
Lemma trim_spaces (ws1 ws2 s : jsstring) (c d : char16) :
  forallb class_s ws1 = true ->
  forallb class_s ws2 = true ->
  hd_error s = Some c -> class_s c = false ->
  hd_error (rev s) = Some d -> class_s d = false ->
  trim (ws1 ++ s ++ ws2) = s.
Proof.
  intros H1 H2 Hc1 Hc2 Hd1 Hd2. unfold trim.
  rewrite (trim_start_spaces ws1 (s ++ ws2) c H1); [| |exact Hc2].
  - assert (H2' : forallb class_s (rev ws2) = true).
    { apply forallb_forall. intros x Hx. apply in_rev in Hx.
      revert x Hx. now apply forallb_forall. }
    rewrite rev_app_distr, (trim_start_spaces (rev ws2) (rev s) d H2' Hd1 Hd2).
    apply rev_involutive.
  - destruct s; [discriminate | exact Hc1].
Qed.

(** X13. [getModelUrl] knows three platforms.  On linux and win32 it
    returns its URL without looking at [uname]; on darwin it returns
    one when [uname -m] gave an output and passes the error on when it
    failed; on every other platform it throws, and the message names
    the platform.  Every URL it returns is the base URL, a file name and
    "?raw=true". *)
Theorem getModelUrl_platforms (platform : jsstring) (uname : completion jsstring) :
  (platform = js "linux" \/ platform = js "win32" ->
   exists file, getModelUrl platform uname = Return (MODEL_URL_BASE ++ file ++ js "?raw=true")) /\
  (platform = js "darwin" ->
   match uname with
   | Return _ => exists file,
       getModelUrl platform uname = Return (MODEL_URL_BASE ++ file ++ js "?raw=true")
   | Throw err => getModelUrl platform uname = Throw err
   end) /\
  (platform <> js "linux" -> platform <> js "win32" -> platform <> js "darwin" ->
   exists rest,
     getModelUrl platform uname = Throw (js "Your platform is not supported: " ++ platform ++ rest)).
Proof.
  split; [|split].
  - intros [-> | ->].
    + exists (js "gpt4all-lora-quantized-linux-x86"). reflexivity.
    + exists (js "gpt4all-lora-quantized-win64.exe"). reflexivity.
  - intros ->. destruct uname as [stdout|err]; [|reflexivity].
    unfold getModelUrl.
    replace (jsstring_eqb (js "darwin") (js "linux")) with false by reflexivity.
    replace (jsstring_eqb (js "darwin") (js "win32")) with false by reflexivity.
    replace (jsstring_eqb (js "darwin") (js "darwin")) with true by reflexivity.
    cbn [negb]. destruct (jsstring_eqb (trim stdout) (js "arm64")).
    + exists (js "gpt4all-lora-quantized-OSX-m1"). reflexivity.
    + exists (js "gpt4all-lora-quantized-OSX-intel"). reflexivity.
  - intros Hl Hw Hd. unfold getModelUrl.
    apply jsstring_eqb_neq in Hl, Hw, Hd. rewrite Hl, Hw, Hd. cbn [negb].
    eexists. reflexivity.
Qed.

(** X14. On darwin the architecture is read from the output of
    [uname -m] with the white space around it removed: "arm64", with
    any white space before and after, selects the M1 binary, and every
    other output, the empty one too, selects the Intel binary. *)
Theorem getModelUrl_darwin_architecture (ws1 ws2 stdout : jsstring) :
  forallb class_s ws1 = true ->
  forallb class_s ws2 = true ->
  getModelUrl (js "darwin") (Return (ws1 ++ js "arm64" ++ ws2)) =
    Return (MODEL_URL_BASE ++ js "gpt4all-lora-quantized-OSX-m1?raw=true") /\
  (trim stdout <> js "arm64" ->
   getModelUrl (js "darwin") (Return stdout) =
     Return (MODEL_URL_BASE ++ js "gpt4all-lora-quantized-OSX-intel?raw=true")).
Proof.
  intros H1 H2. unfold getModelUrl.
  replace (jsstring_eqb (js "darwin") (js "linux")) with false by reflexivity.
  replace (jsstring_eqb (js "darwin") (js "win32")) with false by reflexivity.
  replace (jsstring_eqb (js "darwin") (js "darwin")) with true by reflexivity.
  cbn [negb]. split.
  - rewrite (trim_spaces ws1 ws2 (js "arm64") 97 52 H1 H2); try reflexivity.
  - intros Hne. apply jsstring_eqb_neq in Hne. now rewrite Hne.
Qed.

Lemma getModelUrl_darwin_architecture_witness :
  getModelUrl (js "darwin") (Return ([] ++ js "arm64" ++ [LF])) =
    Return (MODEL_URL_BASE ++ js "gpt4all-lora-quantized-OSX-m1?raw=true").
Proof.
  apply (getModelUrl_darwin_architecture [] [LF] (js "x86_64")); reflexivity.
Defined.

(** *** [followRedirects], further *)

Section MoreRedirects.

Variable Net : Type.
Variable get : jsstring -> Net -> option IncomingMessage * Net.

(** X15. [followRedirects] puts no bound on the number of redirects.
    On a server where every answer is a redirect with a Location, it
    never returns: whatever the fuel, it is used up, one request for
    each unit. *)
Theorem followRedirects_has_no_redirect_limit (fuel : nat) (u : jsstring) (e : Env Net) :
  (forall v n, exists r n' v',
      get v n = (Some r, n') /\
      status_is r 301 || status_is r 302 = true /\
      location r = Some v') ->
  fst (followRedirects get fuel (Some u) e) = OutOfFuel /\
  List.length (requests (snd (followRedirects get fuel (Some u) e)))
  = (List.length (requests e) + fuel)%nat.
Proof.
  intros Hloop. revert u e. induction fuel as [|fuel IH]; intros u e; cbn.
  - split; [reflexivity | lia].
  - destruct (Hloop u (net e)) as (r & n' & v' & Hg & Hs & Hl).
    rewrite Hg, Hs, Hl.
    destruct (IH v' (mkEnv n' (homedir e) (mkdir_ok e) (requests e ++ [u])
                          (made_dirs e) (write_streams e) (piped e))) as (H1 & H2).
    split; [exact H1|]. rewrite H2. cbn. rewrite length_app. cbn. lia.
Qed.

(** The fuel only bounds the recursion: once some fuel suffices for an
    answer, an error or a request left without response, any larger
    fuel gives the same result and leaves the same environment. *)
Lemma followRedirects_fuel_independent
    (fuel fuel' : nat) (url : option jsstring) (e e' : Env Net) (r : fetched) :
  followRedirects get fuel url e = (r, e') ->
  r <> OutOfFuel ->
  (fuel <= fuel')%nat ->
  followRedirects get fuel' url e = (r, e').
Proof.
  revert fuel' url e. induction fuel as [|fuel IH]; intros fuel' url e H Hr Hle.
  - cbn in H. inversion H. subst. now elim Hr.
  - destruct fuel' as [|fuel']; [lia|]. cbn in H |- *.
    destruct url as [u|]; [|exact H].
    destruct (get u (net e)) as [[m|] n']; [|exact H].
    destruct (status_is m 301 || status_is m 302); [|exact H].
    apply IH; [exact H | exact Hr | lia].
Qed.

End MoreRedirects.

Lemma followRedirects_has_no_redirect_limit_witness :
  fst (followRedirects loop_get 50 (Some (js "/a")) mock_env) = OutOfFuel.
Proof.
  apply (followRedirects_has_no_redirect_limit unit loop_get 50 (js "/a") mock_env).
  intros v n. exists (mkMsg (Some 302) (Some v) None), n, v. repeat split.
Defined.

(** *** [downloadFile], further *)

Section MoreDownloads.

Variable Net : Type.
Variable get : jsstring -> Net -> option IncomingMessage * Net.

(** X17. A final response whose status is not 200 rejects the download
    with that status, whatever content-length it carries; with no
    status, or status 0, it rejects with "Failed to download".  No file
    is opened in either case. *)
Theorem download_rejects_other_statuses
    (fuel : nat) (url dest : jsstring) (e e2 : Env Net) (resp : IncomingMessage) :
  mkdir_ok e = true ->
  followRedirects get fuel (Some url) (mkdir (nomic_dir e) e) = (Response resp, e2) ->
  statusCode resp <> Some 200 ->
  downloadFile get fuel url dest e =
    (Rejected match statusCode resp with
              | Some 0 | None => Message (js "Failed to download")
              | Some c => Status c
              end, e2) /\
  write_streams e2 = write_streams e /\ piped e2 = piped e.
Proof.
  intros Hok Hf Hst. rewrite (downloadFile_receive _ _ _ _ dest _ _ _ Hok Hf).
  pose proof (followRedirects_keeps_disk Net get fuel (Some url) (mkdir (nomic_dir e) e)) as Hk.
  rewrite Hf in Hk. cbn in Hk. destruct Hk as (_ & _ & _ & Hws & Hpi).
  split; [|now split]. unfold receive, status_is.
  destruct (statusCode resp) as [c|]; [|reflexivity].
  destruct (N.eqb_spec c 200) as [->|Hne]; [now elim Hst|]. cbn [negb].
  now destruct c.
Qed.

(** X18. When no response can be had, the promise of [downloadFile]
    never settles: if the redirects end in an error (a redirect without
    Location) or a request is left without response, or if [mkdir]
    fails, neither [resolve] nor [reject] is ever called, whatever a
    writer might do later; no file is opened. *)
Theorem download_without_response_never_settles
    (fuel : nat) (url dest : jsstring) (e : Env Net) (ev : writer_event) :
  let f := fst (followRedirects get fuel (Some url) (mkdir (nomic_dir e) e)) in
  mkdir_ok e = false \/ (exists err, f = Threw err) \/ f = NoResponse ->
  fst (downloadFile get fuel url dest e) = NeverSettles /\
  on_writer_event (fst (downloadFile get fuel url dest e)) ev = None /\
  write_streams (snd (downloadFile get fuel url dest e)) = write_streams e /\
  (mkdir_ok e = false -> requests (snd (downloadFile get fuel url dest e)) = requests e).
Proof.
  intros f H.
  pose proof (followRedirects_keeps_disk Net get fuel (Some url) (mkdir (nomic_dir e) e)) as Hk.
  destruct Hk as (_ & _ & _ & Hws & _).
  unfold downloadFile. cbn [mkdir_ok mkdir].
  fold (mkdir (nomic_dir e) e). subst f.
  destruct (mkdir_ok e) eqn:Hok; cbn [negb].
  - assert (Hr : (exists err, fst (followRedirects get fuel (Some url) (mkdir (nomic_dir e) e))
                              = Threw err) \/
                 fst (followRedirects get fuel (Some url) (mkdir (nomic_dir e) e)) = NoResponse).
    { destruct H as [H | H]; [discriminate | exact H]. }
    clear H.
    destruct (followRedirects get fuel (Some url) (mkdir (nomic_dir e) e)) as [r e2].
    cbn [fst snd] in Hr, Hws. cbn [write_streams mkdir] in Hws.
    destruct Hr as [[err ->] | ->]; cbn [fst snd on_writer_event];
      (split; [reflexivity|]; split; [reflexivity|]; split; [exact Hws|]; intros; discriminate).
  - cbn [fst snd on_writer_event write_streams requests mkdir].
    split; [reflexivity|]; split; [reflexivity|]; split; reflexivity.
Qed.

(** X19. A final response with status 200 and a content-length that
    [Number] makes a non-zero number is streamed: one write stream is
    opened on the destination and the body piped into it; the promise
    resolves when the writer finishes and rejects with the writer's
    error when it fails. *)
Theorem download_streams_a_sized_response
    (fuel : nat) (url dest : jsstring) (e e2 : Env Net) (resp : IncomingMessage)
    (err : jsstring) :
  mkdir_ok e = true ->
  followRedirects get fuel (Some url) (mkdir (nomic_dir e) e) = (Response resp, e2) ->
  status_is resp 200 = true ->
  truthy (Number (content_length resp)) = true ->
  let d := fst (downloadFile get fuel url dest e) in
  let e3 := snd (downloadFile get fuel url dest e) in
  d = Streaming (Number (content_length resp)) /\
  write_streams e3 = write_streams e ++ [dest] /\
  piped e3 = piped e ++ [dest] /\
  requests e3 = requests e2 /\
  on_writer_event d Finish = Some Fulfilled /\
  on_writer_event d (WriterError err) = Some (Failed (Message err)).
Proof.
  intros Hok Hf Hst Htr d e3.
  pose proof (followRedirects_keeps_disk Net get fuel (Some url) (mkdir (nomic_dir e) e)) as Hk.
  rewrite Hf in Hk. cbn in Hk. destruct Hk as (_ & _ & _ & Hws & Hpi).
  subst d e3. rewrite (downloadFile_receive _ _ _ _ dest _ _ _ Hok Hf).
  unfold receive. rewrite Hst, Htr. cbn [negb].
  assert (Hz : is_zero (Number (content_length resp)) = false).
  { destruct (Number (content_length resp)) as [| |q]; try reflexivity.
    cbn in Htr |- *. now apply negb_true_iff in Htr. }
  rewrite Hz. cbn. rewrite Hws, Hpi. repeat split.
Qed.

End MoreDownloads.

Lemma download_rejects_other_statuses_witness :
  downloadFile (fun u n => (Some (mkMsg (Some 404) None (Some (js "1024"))), n)) 1
               (js "/gone") (js "/home/u/.nomic/gpt4all") mock_env
  = (Rejected (Status 404),
     mkEnv tt (js "/home/u") true [js "/gone"] [js "file:///home/u/.nomic/"] [] []).
Proof.
  apply (download_rejects_other_statuses unit
           (fun u n => (Some (mkMsg (Some 404) None (Some (js "1024"))), n)) 1
           (js "/gone") (js "/home/u/.nomic/gpt4all") mock_env
           (mkEnv tt (js "/home/u") true [js "/gone"] [js "file:///home/u/.nomic/"] [] [])
           (mkMsg (Some 404) None (Some (js "1024")))).
  - reflexivity.
  - reflexivity.
  - discriminate.
Defined.

Lemma download_without_response_never_settles_witness :
  fst (downloadFile (fun u n => (Some (mkMsg (Some 302) None None), n)) 5
                    (js "/a") (js "/home/u/.nomic/gpt4all") mock_env) = NeverSettles.
Proof.
  apply (download_without_response_never_settles unit
           (fun u n => (Some (mkMsg (Some 302) None None), n)) 5
           (js "/a") (js "/home/u/.nomic/gpt4all") mock_env Finish).
  right. left. exists (js "No URL provided"). reflexivity.
Defined.

Lemma download_streams_a_sized_response_witness :
  write_streams (snd (downloadFile mock_get 1 (js "/sized") (js "/home/u/.nomic/gpt4all") mock_env))
  = [] ++ [js "/home/u/.nomic/gpt4all"].
Proof.
  apply (download_streams_a_sized_response unit mock_get 1 (js "/sized")
           (js "/home/u/.nomic/gpt4all") mock_env
           (mkEnv tt (js "/home/u") true [js "/sized"] [js "file:///home/u/.nomic/"] [] [])
           (mkMsg (Some 200) None (Some (js "42"))) (js "ENOSPC")).
  - reflexivity.
  - reflexivity.
  - reflexivity.
  - vm_compute. reflexivity.
Defined.

(** *** [Number] of a decimal content-length *)

Lemma digit10_range (c : char16) :
  is_digit 10 c = true -> 48 <= c <= 57.
Proof.
  unfold is_digit, digit_of.
  destruct ((48 <=? c) && (c <=? 57)) eqn:E1.
  - intros _. apply andb_prop in E1 as [A B].
    apply N.leb_le in A, B. lia.
  - destruct ((97 <=? c) && (c <=? 102)) eqn:E2.
    + apply andb_prop in E2 as [A B]. apply N.leb_le in A, B.
      replace (c - 87 <? 10) with false by (symmetry; apply N.ltb_ge; lia). discriminate.
    + destruct ((65 <=? c) && (c <=? 70)) eqn:E3; [|discriminate].
      apply andb_prop in E3 as [A B]. apply N.leb_le in A, B.
      replace (c - 55 <? 10) with false by (symmetry; apply N.ltb_ge; lia). discriminate.
Qed.

Lemma digit10_cases (c : char16) :
  is_digit 10 c = true ->
  c = 48 \/ c = 49 \/ c = 50 \/ c = 51 \/ c = 52 \/ c = 53 \/ c = 54 \/ c = 55 \/ c = 56 \/ c = 57.
Proof. intros H. apply digit10_range in H. lia. Qed.

Lemma digit10_not_space (c : char16) : is_digit 10 c = true -> class_s c = false.
Proof.
  intros H. apply digit10_cases in H.
  repeat (destruct H as [-> | H]; [reflexivity|]). subst. reflexivity.
Qed.

Lemma span_digits (ds : jsstring) :
  forallb (is_digit 10) ds = true -> span (is_digit 10) ds = (ds, []).
Proof.
  induction ds as [|c ds IH]; intros H; cbn; [reflexivity|].
  cbn in H. apply andb_prop in H as [Hc Hds]. now rewrite Hc, (IH Hds).
Qed.

Lemma last_digit (ds : jsstring) (c : char16) :
  forallb (is_digit 10) ds = true -> hd_error (rev ds) = Some c -> is_digit 10 c = true.
Proof.
  intros H Hc. rewrite forallb_forall in H. apply H. apply in_rev.
  destruct (rev ds); [discriminate|]. inversion Hc. now left.
Qed.

Lemma tiny_below_one : (Qpower (2 # 1) (-1075) < 1)%Q.
Proof. vm_compute. reflexivity. Qed.

Lemma rounds_to_zero_integer (v : N) :
  rounds_to_zero (inject_Z (Z.of_N v) * Qpower (10 # 1) (0 - Z.of_nat 0)) = (v =? 0).
Proof.
  unfold rounds_to_zero. destruct (N.eqb_spec v 0) as [->|Hne].
  - vm_compute. reflexivity.
  - destruct (Qle_bool _ _) eqn:E; [|reflexivity]. exfalso.
    apply Qle_bool_iff in E. pose proof tiny_below_one as T.
    assert (H1 : (1 <= Qabs (inject_Z (Z.of_N v) * Qpower (10 # 1) (0 - Z.of_nat 0)))%Q).
    { cbn. unfold Qle. cbn. lia. }
    apply (Qlt_irrefl 1%Q). eapply Qle_lt_trans; [exact H1|]. eapply Qle_lt_trans; [exact E | exact T].
Qed.

(** [Number] of a string of decimal digits is zero exactly when the
    digits name zero. *)
Lemma Number_decimal_zero_test (ds : jsstring) :
  ds <> [] ->
  forallb (is_digit 10) ds = true ->
  truthy (Number (Some ds)) = negb (digits_value 10 ds =? 0) /\
  is_zero (Number (Some ds)) = (digits_value 10 ds =? 0).
Proof.
  intros Hne Hds.
  assert (HN : Number (Some ds) =
               Val (inject_Z (Z.of_N (digits_value 10 ds)) * Qpower (10 # 1) (0 - Z.of_nat 0))).
  { destruct ds as [|c ds']; [now elim Hne|].
    assert (Hc : is_digit 10 c = true).
    { apply (proj1 (forallb_forall _ _) Hds c). now left. }
    destruct (rev (c :: ds')) as [|d rds] eqn:Hrev.
    { apply (f_equal (@List.length _)) in Hrev. rewrite length_rev in Hrev. discriminate. }
    assert (Hd : is_digit 10 d = true) by (apply (last_digit (c :: ds')); [exact Hds | now rewrite Hrev]).
    assert (Htrim : trim (c :: ds') = c :: ds').
    { pose proof (trim_spaces [] [] (c :: ds') c d eq_refl eq_refl eq_refl
                    (digit10_not_space c Hc)) as T.
      rewrite Hrev in T. specialize (T eq_refl (digit10_not_space d Hd)).
      now rewrite app_nil_l, app_nil_r in T. }
    unfold Number, StringToNumber. rewrite Htrim.
    assert (Hnd : parse_non_decimal (c :: ds') = None).
    { unfold parse_non_decimal. destruct (c =? 48) eqn:E48.
      - apply N.eqb_eq in E48. subst c. destruct ds' as [|x [|y r]]; try reflexivity.
        assert (Hx : is_digit 10 x = true).
        { apply (proj1 (forallb_forall _ _) Hds x). right. now left. }
        apply digit10_cases in Hx.
        repeat (destruct Hx as [-> | Hx]; [reflexivity|]). subst. reflexivity.
      - apply digit10_cases in Hc.
        repeat (destruct Hc as [-> | Hc]; [discriminate || reflexivity|]). subst. reflexivity. }
    rewrite Hnd.
    assert (Hlit : match c :: ds' with
                   | 43 :: r => parse_unsigned_decimal r
                   | 45 :: r => negate (parse_unsigned_decimal r)
                   | _ => parse_unsigned_decimal (c :: ds')
                   end = parse_unsigned_decimal (c :: ds')).
    { pose proof (digit10_cases c Hc) as Hcc.
      repeat (destruct Hcc as [-> | Hcc]; [reflexivity|]). subst. reflexivity. }
    rewrite Hlit. unfold parse_unsigned_decimal.
    assert (Hinf : jsstring_eqb (c :: ds') (js "Infinity") = false).
    { apply jsstring_eqb_neq. intros E. inversion E. subst c. discriminate Hc. }
    rewrite Hinf, (span_digits _ Hds). cbn [parse_exponent List.length]. now rewrite app_nil_r. }
  rewrite HN. cbn [truthy is_zero]. now rewrite rounds_to_zero_integer.
Qed.

Lemma digits_value_zero : forall ds acc,
  forallb (is_digit 10) ds = true ->
  (fold_left (fun a c => a * 10 + match digit_of 10 c with Some d => d | None => 0 end) ds acc
   =? 0) = (acc =? 0) && forallb (N.eqb 48) ds.
Proof.
  induction ds as [|c ds IH]; intros acc H; cbn [fold_left forallb].
  - now rewrite andb_true_r.
  - cbn in H. apply andb_prop in H as [Hc Hds]. rewrite (IH _ Hds).
    pose proof (digit10_range c Hc) as Hr.
    assert (Hd : digit_of 10 c = Some (c - 48)).
    { unfold digit_of. replace ((48 <=? c) && (c <=? 57)) with true.
      - replace (c - 48 <? 10) with true by (symmetry; apply N.ltb_lt; lia). reflexivity.
      - symmetry. apply andb_true_intro. split; apply N.leb_le; lia. }
    rewrite Hd. rewrite andb_assoc. f_equal.
    destruct (N.eqb_spec (acc * 10 + (c - 48)) 0) as [E|E];
      destruct (N.eqb_spec acc 0) as [A|A]; destruct (N.eqb_spec 48 c) as [C|C];
      try reflexivity; exfalso; lia.
Qed.

Section DecimalLength.

Variable Net : Type.
Variable get : jsstring -> Net -> option IncomingMessage * Net.

(** X20. After a 200, a content-length made of decimal digits decides
    the download by whether it names zero: if every digit is "0" the
    download is rejected with the no-size message, "0000" like "0", and
    nothing is opened; if some digit is not "0" the destination is
    opened and the body streamed into it. *)
Theorem decimal_content_length_decides
    (fuel : nat) (url dest : jsstring) (e e2 : Env Net) (resp : IncomingMessage)
    (ds : jsstring) :
  mkdir_ok e = true ->
  followRedirects get fuel (Some url) (mkdir (nomic_dir e) e) = (Response resp, e2) ->
  status_is resp 200 = true ->
  content_length resp = Some ds ->
  ds <> [] ->
  forallb (is_digit 10) ds = true ->
  (forallb (N.eqb 48) ds = true ->
   downloadFile get fuel url dest e = (Rejected (Message no_size), e2) /\
   write_streams e2 = write_streams e) /\
  (forallb (N.eqb 48) ds = false ->
   (exists total, fst (downloadFile get fuel url dest e) = Streaming total) /\
   write_streams (snd (downloadFile get fuel url dest e)) = write_streams e ++ [dest] /\
   piped (snd (downloadFile get fuel url dest e)) = piped e ++ [dest]).
Proof.
  intros Hok Hf Hst Hcl Hne Hds.
  destruct (Number_decimal_zero_test ds Hne Hds) as (Htr & Hz).
  unfold digits_value in Htr, Hz. rewrite (digits_value_zero ds 0 Hds) in Htr, Hz.
  cbn [N.eqb andb] in Htr, Hz.
  pose proof (followRedirects_keeps_disk Net get fuel (Some url) (mkdir (nomic_dir e) e)) as Hk.
  rewrite Hf in Hk. cbn in Hk. destruct Hk as (_ & _ & _ & Hws & Hpi).
  rewrite (downloadFile_receive _ _ _ _ dest _ _ _ Hok Hf).
  unfold receive. rewrite Hst, Hcl. cbn [negb]. split; intros Hall; rewrite Hall in Htr, Hz.
  - rewrite Htr. cbn [negb]. destruct zero_is_falsy as (_ & Hz0). rewrite Hz0. now split.
  - rewrite Htr. cbn [negb]. rewrite Hz. cbn. rewrite Hws, Hpi. eauto.
Qed.

End DecimalLength.

Lemma decimal_content_length_decides_witness :
  downloadFile mock_get 1 (js "/zero") (js "/home/u/.nomic/gpt4all") mock_env
  = (Rejected (Message no_size),
     mkEnv tt (js "/home/u") true [js "/zero"] [js "file:///home/u/.nomic/"] [] []) /\
  write_streams (snd (downloadFile mock_get 1 (js "/sized") (js "/home/u/.nomic/gpt4all")
                                   mock_env))
  = [] ++ [js "/home/u/.nomic/gpt4all"].
Proof.
  split.
  - apply (decimal_content_length_decides unit mock_get 1 (js "/zero")
             (js "/home/u/.nomic/gpt4all") mock_env
             (mkEnv tt (js "/home/u") true [js "/zero"] [js "file:///home/u/.nomic/"] [] [])
             (mkMsg (Some 200) None (Some (js "0"))) (js "0"));
      solve [reflexivity | discriminate].
  - apply (decimal_content_length_decides unit mock_get 1 (js "/sized")
             (js "/home/u/.nomic/gpt4all") mock_env
             (mkEnv tt (js "/home/u") true [js "/sized"] [js "file:///home/u/.nomic/"] [] [])
             (mkMsg (Some 200) None (Some (js "42"))) (js "42"));
      solve [reflexivity | discriminate].
Defined.

(** *** [downloadExecutable] and [downloadModel] *)

Section Artifacts.

Variable Net : Type.
Variable get : jsstring -> Net -> option IncomingMessage * Net.

(** A download that is streaming has opened its destination, and
    only a download that is streaming has opened anything. *)
Lemma downloadFile_write_streams (fuel : nat) (url dest : jsstring) (e : Env Net) :
  write_streams (snd (downloadFile get fuel url dest e)) =
  match fst (downloadFile get fuel url dest e) with
  | Streaming _ => write_streams e ++ [dest]
  | _ => write_streams e
  end.
Proof.
  pose proof (followRedirects_keeps_disk Net get fuel (Some url) (mkdir (nomic_dir e) e)) as Hk.
  destruct Hk as (_ & _ & _ & Hws & _).
  unfold downloadFile. cbn [mkdir_ok mkdir]. fold (mkdir (nomic_dir e) e).
  destruct (mkdir_ok e); cbn [negb]; [|reflexivity].
  destruct (followRedirects get fuel (Some url) (mkdir (nomic_dir e) e)) as [r e2].
  cbn [fst snd] in Hws. cbn [write_streams mkdir] in Hws.
  destruct r as [resp|err| |]; cbn [fst snd]; try exact Hws.
  unfold receive. destruct (negb (status_is resp 200)); [exact Hws|].
  destruct (is_zero _); cbn; [exact Hws | now rewrite Hws].
Qed.

Lemma await_done (d : download) (ev : writer_event) :
  await_download d ev = Done -> (exists total, d = Streaming total) /\ ev = Finish.
Proof.
  destruct d as [r|t| |]; destruct ev; cbn; try discriminate. intros _. eauto.
Qed.

(** X21. [downloadExecutable] makes the file executable only after the
    download has finished.  When it is done, the writer has finished a
    stream opened on the executable's path, that path has been given
    mode 0o755 and the success line has been logged; in every other
    case no file has been made executable and nothing has been logged. *)
Theorem downloadExecutable_chmod_after_finish
    (platform : jsstring) (uname : completion jsstring) (fuel : nat)
    (ev : writer_event) (h : Host Net) :
  let r := downloadExecutable get platform uname fuel ev h in
  let path := executablePath_of (homedir (env h)) in
  (fst r = Done ->
   ev = Finish /\
   chmod_error h = None /\
   write_streams (env (snd r)) = write_streams (env h) ++ [path] /\
   made_executable (snd r) = made_executable h ++ [(path, 493)] /\
   console (snd r) = console h ++ [js "File downloaded successfully to " ++ path]) /\
  (fst r <> Done ->
   made_executable (snd r) = made_executable h /\ console (snd r) = console h).
Proof.
  intros r path. subst r. unfold downloadExecutable.
  destruct (getModelUrl platform uname) as [upstream|err];
    [|split; [discriminate | now split]].
  fold path.
  pose proof (downloadFile_write_streams fuel upstream path (env h)) as Hws.
  destruct (downloadFile get fuel upstream path (env h)) as [d e'].
  cbn [fst snd] in Hws.
  destruct (await_download d ev) eqn:Ha.
  - apply await_done in Ha as [[total ->] ->].
    cbn [chmod_error]. destruct (chmod_error h) as [err|] eqn:Hch.
    + split; [discriminate | now split].
    + split; [|intros H; now elim H]. intros _. cbn. repeat split. exact Hws.
  - split; [discriminate | now split].
  - split; [discriminate | now split].
  - split; [discriminate | now split].
  - split; [discriminate | now split].
Qed.

(** X22. [downloadModel] fetches a fixed URL made from the model name
    into the model path and never changes a file's mode.  The success
    line is logged exactly when the download is done, and then the
    writer has finished a stream opened on the model path. *)
Theorem downloadModel_logs_after_finish
    (model : jsstring) (fuel : nat) (ev : writer_event) (h : Host Net) :
  let r := downloadModel get model fuel ev h in
  let path := modelPath_of (homedir (env h)) model in
  made_executable (snd r) = made_executable h /\
  env (snd r) = snd (downloadFile get fuel (modelUrl_of model) path (env h)) /\
  (fst r = Done ->
   ev = Finish /\
   write_streams (env (snd r)) = write_streams (env h) ++ [path] /\
   console (snd r) = console h ++ [js "File downloaded successfully to " ++ path]) /\
  (fst r <> Done -> console (snd r) = console h).
Proof.
  intros r path. subst r. unfold downloadModel. fold path.
  pose proof (downloadFile_write_streams fuel (modelUrl_of model) path (env h)) as Hws.
  destruct (downloadFile get fuel (modelUrl_of model) path (env h)) as [d e'].
  cbn [fst snd] in Hws |- *.
  destruct (await_download d ev) eqn:Ha; cbn [fst snd made_executable env console];
    (split; [reflexivity|]; split; [reflexivity|]).
  - apply await_done in Ha as [[total ->] ->].
    split; [|intros H; now elim H]. intros _. repeat split. exact Hws.
  - split; [discriminate | reflexivity].
  - split; [discriminate | reflexivity].
  - split; [discriminate | reflexivity].
  - split; [discriminate | reflexivity].
Qed.

(** X23. On a platform [getModelUrl] does not know,
    [downloadExecutable] fails before it touches anything: no directory
    is made, no request sent, no file opened or changed. *)
Theorem downloadExecutable_unsupported_platform
    (platform : jsstring) (uname : completion jsstring) (fuel : nat)
    (ev : writer_event) (h : Host Net) :
  platform <> js "linux" -> platform <> js "win32" -> platform <> js "darwin" ->
  exists rest,
    downloadExecutable get platform uname fuel ev h =
      (Raised (js "Your platform is not supported: " ++ platform ++ rest), h).
Proof.
  intros Hl Hw Hd. unfold downloadExecutable, getModelUrl.
  apply jsstring_eqb_neq in Hl, Hw, Hd. rewrite Hl, Hw, Hd. cbn [negb].
  eexists. reflexivity.
Qed.

End Artifacts.

Lemma downloadExecutable_chmod_after_finish_witness :
  made_executable (snd (downloadExecutable file_get (js "linux") (Throw []) 1 Finish mock_host))
  = [] ++ [(js "/home/u/.nomic/gpt4all", 493)].
Proof.
  destruct (downloadExecutable_chmod_after_finish unit file_get (js "linux") (Throw []) 1
              Finish mock_host) as (H & _).
  destruct H as (_ & _ & _ & H & _); [reflexivity | exact H].
Defined.

Lemma downloadExecutable_unsupported_platform_witness :
  exists rest,
    downloadExecutable file_get (js "freebsd") (Throw []) 1 Finish mock_host =
      (Raised (js "Your platform is not supported: " ++ js "freebsd" ++ rest), mock_host).
Proof.
  apply (downloadExecutable_unsupported_platform unit file_get (js "freebsd") (Throw []) 1
           Finish mock_host); discriminate.
Defined.

End DownloadFacts.
